(** * Eureka: the bit-flag demo (Go) and the OneTable overview script (JavaScript)

    Two modules, one per source file:
    - [BitFlags] embeds the Go program: the [Flags] type over [uint], its
      five constants, the four helpers and [main];
    - [Overview] embeds the JavaScript tutorial script and its schema.

    Go's [uint] is 32 or 64 bits wide depending on the target; every
    statement below is made for both widths. *)

From Stdlib Require Import ZArith List String Ascii Bool Lia.
From Stdlib Require Import DecimalString FinFun.
Import ListNotations.

(** Decimal rendering of a non-negative integer, shared by both programs
    (Go's [%d] verb and JavaScript template literals). *)
Definition dec_string (z : Z) : string :=
  NilZero.string_of_uint (N.to_uint (Z.to_N z)).

(* ================================================================== *)
(** * The bit-flag demo *)
(* ================================================================== *)

Module BitFlags.

Local Open Scope Z_scope.

(** The two widths Go allows for [uint]. *)
Inductive word_size : Type := W32 | W64.

Definition uint_bits (ws : word_size) : Z :=
  match ws with W32 => 32 | W64 => 64 end.

Section Uint.

Variable ws : word_size.

Definition modulus : Z := 2 ^ uint_bits ws.

(** Reduction of a mathematical integer to a [uint]. *)
Definition wrap (z : Z) : Z := z mod modulus.

(** The values a [uint] (hence a [Flags]) can hold. *)
Definition is_uint (z : Z) : Prop := 0 <= z < modulus.

(** [^x]: bitwise complement within the word. *)
Definition uint_not (x : Z) : Z := wrap (Z.lnot x).

(** [x & y], [x | y], [x ^ y]. *)
Definition uint_and (x y : Z) : Z := Z.land x y.
Definition uint_or (x y : Z) : Z := Z.lor x y.
Definition uint_xor (x y : Z) : Z := Z.lxor x y.

(** [x &^ y]: bit clear, that is [x & (^y)]. *)
Definition uint_andnot (x y : Z) : Z := Z.land x (uint_not y).

(** [x << n] drops the bits shifted out of the word; [x >> n]. *)
Definition uint_shl (x n : Z) : Z := wrap (Z.shiftl x n).
Definition uint_shr (x n : Z) : Z := Z.shiftr x n.

End Uint.

(** [type Flags uint] *)
Definition Flags : Type := Z.

(** [FlagUp Flags = 1 << iota] and its four successors in the [const]
    block, [iota] running from 0 to 4. *)
Definition flag_of_iota (iota : Z) : Flags := Z.shiftl 1 iota.

Definition FlagUp : Flags := flag_of_iota 0.
Definition FlagBroadcast : Flags := flag_of_iota 1.
Definition FlagLoopback : Flags := flag_of_iota 2.
Definition FlagPointToPoint : Flags := flag_of_iota 3.
Definition FlagMulticast : Flags := flag_of_iota 4.

Section Helpers.

Variable ws : word_size.

(** [func IsUp(v Flags) bool { return v&FlagUp == FlagUp }] *)
Definition IsUp (v : Flags) : bool :=
  uint_and v FlagUp =? FlagUp.

(** [func TurnDown(v *Flags) { *v &^= FlagUp }]: the pointee before the
    call is the argument, the pointee after the call is the result. *)
Definition TurnDown (v : Flags) : Flags :=
  uint_andnot ws v FlagUp.

(** [func SetBroadcast(v *Flags) { *v |= FlagBroadcast }] *)
Definition SetBroadcast (v : Flags) : Flags :=
  uint_or v FlagBroadcast.

(** [func IsCast(v Flags) bool { return v&(FlagBroadcast|FlagMulticast) != 0 }] *)
Definition IsCast (v : Flags) : bool :=
  negb (uint_and v (uint_or FlagBroadcast FlagMulticast) =? 0).

End Helpers.

(** ** Formatting verbs of [fmt.Printf] used by [main] *)

Fixpoint bin_of_pos (p : positive) : string :=
  match p with
  | xH => "1"
  | xO q => bin_of_pos q ++ "0"
  | xI q => bin_of_pos q ++ "1"
  end%string.

(** [%b] on an unsigned value. *)
Definition fmt_b (z : Z) : string :=
  match z with
  | Zpos p => bin_of_pos p
  | _ => "0"%string
  end.

(** [%d] on an unsigned value. *)
Definition fmt_d (z : Z) : string := dec_string z.

(** [%t] *)
Definition fmt_t (b : bool) : string :=
  if b then "true"%string else "false"%string.

(** ** [main] *)

(** The variables of [main] that are live across statements, and what has
    been written to standard output so far, one entry per line. *)
Record main_state : Type := MainState {
  var_a : Z;
  var_b : Z;
  var_c : Z;
  var_v : Flags;
  stdout : list string
}.

Definition println (line : string) (s : main_state) : main_state :=
  MainState (var_a s) (var_b s) (var_c s) (var_v s) (stdout s ++ [line]).

Definition set_c (c : Z) (s : main_state) : main_state :=
  MainState (var_a s) (var_b s) c (var_v s) (stdout s).

Definition set_v (v : Flags) (s : main_state) : main_state :=
  MainState (var_a s) (var_b s) (var_c s) v (stdout s).

(** ["Line k - Value of c is %d\n"], for the literal digit [k] of the
    format string. *)
Definition line_c (k : string) (c : Z) : string :=
  ("Line " ++ k ++ " - Value of c is " ++ fmt_d c)%string.

(** ["%b %d\n"] and ["%b %t\n"] *)
Definition line_bd (v : Flags) : string :=
  (fmt_b v ++ " " ++ fmt_d v)%string.
Definition line_bt (v : Flags) (b : bool) : string :=
  (fmt_b v ++ " " ++ fmt_t b)%string.

Section Main.

Variable ws : word_size.

(** State at the declaration of [v]: [a = 1], [b = 10], [c = 100],
    [v = FlagMulticast | FlagUp]. *)
Definition main_init : main_state :=
  MainState 1 10 100 (uint_or FlagMulticast FlagUp) [].

(** Lines 35-43: the flag-helper calls. *)
Definition main_flags (s : main_state) : main_state :=
  let s := println (line_bd (var_v s)) s in
  let s := println (line_bt (var_v s) (IsUp (var_v s))) s in
  let s := set_v (TurnDown ws (var_v s)) s in
  let s := println (line_bt (var_v s) (IsUp (var_v s))) s in
  let s := set_v (SetBroadcast (var_v s)) s in
  let s := println (line_bt (var_v s) (IsUp (var_v s))) s in
  let s := println (line_bt (var_v s) (IsCast (var_v s))) s in
  s.

(** Lines 45-58: each assignment to [c] with the [Printf] after it. *)
Definition stmt_and (s : main_state) : main_state :=
  let s := set_c (uint_and (var_a s) (var_b s)) s in
  println (line_c "1" (var_c s)) s.

Definition stmt_or (s : main_state) : main_state :=
  let s := set_c (uint_or (var_a s) (var_b s)) s in
  println (line_c "2" (var_c s)) s.

Definition stmt_xor (s : main_state) : main_state :=
  let s := set_c (uint_xor (var_a s) (var_b s)) s in
  println (line_c "3" (var_c s)) s.

Definition stmt_shl (s : main_state) : main_state :=
  let s := set_c (uint_shl ws (var_a s) 2) s in
  println (line_c "4" (var_c s)) s.

Definition stmt_shr (s : main_state) : main_state :=
  let s := set_c (uint_shr (var_a s) 2) s in
  println (line_c "5" (var_c s)) s.

Definition main_arith (s : main_state) : main_state :=
  stmt_shr (stmt_shl (stmt_xor (stmt_or (stmt_and s)))).

Definition main : main_state := main_arith (main_flags main_init).

(** The state after each of the five assignments, in program order; the
    last one is the state [main] ends in. *)
Definition arith_trace (s : main_state) : list main_state :=
  let s1 := stmt_and s in
  let s2 := stmt_or s1 in
  let s3 := stmt_xor s2 in
  let s4 := stmt_shl s3 in
  let s5 := stmt_shr s4 in
  [s1; s2; s3; s4; s5].

End Main.

End BitFlags.

(* ================================================================== *)
(** * The OneTable overview script *)
(* ================================================================== *)

Module Overview.

Local Open Scope string_scope.

(** ** JavaScript values

    Values as the script sees them.  [VObj] and [VArr] carry the data
    properties the script can read; an array may carry named properties
    besides its elements (OneTable hangs [start] and [next] on the arrays
    it returns).  [VRef] is an object known only by its identity: the
    [batch] and [transaction] objects, which the script creates empty and
    hands to the library to fill.  [VFun] names a built-in constructor
    used as a schema type. *)
#[local] Set Warnings "-register-all".

Inductive value : Type :=
| VUndefined
| VNull
| VBool (b : bool)
| VNum (n : Z)
| VDec (mantissa : Z) (decimals : nat)
| VNaN
| VStr (s : string)
| VArr (items : list value) (props : list (string * value))
| VObj (props : list (string * value))
| VRef (loc : nat)
| VFun (name : string).

Definition arr (items : list value) : value := VArr items [].

(** The double-quote character, for the zip literal of the nested update. *)
Definition dquote : string := String (ascii_of_nat 34) EmptyString.

Fixpoint lookup (k : string) (props : list (string * value)) : value :=
  match props with
  | [] => VUndefined
  | (k', v) :: rest => if String.eqb k k' then v else lookup k rest
  end.

Definition nullish (v : value) : bool :=
  match v with VUndefined | VNull => true | _ => false end.

(** [v.k] on a value that is neither [null] nor [undefined]. *)
Definition prop_of (v : value) (k : string) : value :=
  match v with
  | VObj props => lookup k props
  | VArr _ props => lookup k props
  | _ => VUndefined
  end.

(** Truthiness, as [while (users.start)] tests it. *)
Definition truthy (v : value) : bool :=
  match v with
  | VUndefined | VNull | VNaN => false
  | VBool b => b
  | VNum n => negb (n =? 0)%Z
  | VDec m _ => negb (m =? 0)%Z
  | VStr s => negb (String.eqb s "")
  | VArr _ _ | VObj _ | VRef _ | VFun _ => true
  end.

(** Decimal rendering of numbers that JavaScript prints in positional
    notation: integers in the safe range and short decimal fractions. *)
Definition int_string (n : Z) : string :=
  if (n <? 0)%Z then "-" ++ dec_string (- n) else dec_string n.

(** Drops the trailing zeros of a fraction: 10.50 prints as 10.5. *)
Fixpoint dec_normal (m : Z) (decimals : nat) : Z * nat :=
  match decimals with
  | O => (m, O)
  | S d => if (m mod 10 =? 0)%Z then dec_normal (m / 10) d else (m, decimals)
  end.

Definition dec_render (mantissa : Z) (decimals : nat) : string :=
  let '(m, d) := dec_normal mantissa decimals in
  let scale := (10 ^ Z.of_nat d)%Z in
  let a := Z.abs m in
  let sign := if (m <? 0)%Z then "-" else "" in
  match d with
  | O => int_string m
  | S _ =>
    sign ++ dec_string (a / scale) ++ "." ++
    (let f := dec_string (a mod scale) in
     String.concat "" (repeat "0" (d - String.length f)) ++ f)
  end.

(** String conversion, as template literals apply it. *)
Fixpoint to_str (v : value) : string :=
  match v with
  | VUndefined => "undefined"
  | VNull => "null"
  | VBool true => "true"
  | VBool false => "false"
  | VNum n => int_string n
  | VDec m d => dec_render m d
  | VNaN => "NaN"
  | VStr s => s
  | VArr items _ =>
    String.concat ","
      (map (fun x => if nullish x then "" else to_str x) items)
  | VObj _ => "[object Object]"
  | VRef _ => "[object Object]"
  | VFun name => "function " ++ name ++ "() { [native code] }"
  end.

(** [x - k] for a number [x]; anything that is not a number gives [NaN]
    here (the script subtracts only from [Date.getMonth()]). *)
Definition num_minus (x : value) (k : Z) : value :=
  match x with
  | VNum n => VNum (n - k)
  | VDec m d => VDec (m - k * 10 ^ Z.of_nat d) d
  | _ => VNaN
  end.

(** ** Effects

    The script talks to three things it does not implement: the OneTable
    library (through [table] and the models it hands out), the local
    database emulator, and the JavaScript host ([process], [Date],
    [console], timers).  A call is recorded in the log and answered by the
    environment, which either returns a value or raises one. *)

Inductive callee : Type :=
| Global (path : string)                  (* [table.fetch], [process.kill], ... *)
| Method (receiver : value) (name : string).   (* [User.create], [from.getMonth], ... *)

Inductive event : Type :=
| Call (f : callee) (args : list value)   (* a library or host call *)
| Stderr (v : value)                      (* [console.error(v)] *)
| Sleep (ms : Z).                         (* a timer of [delay] *)

Inductive reply : Type :=
| Returns (v : value)
| Raises (e : value).

(** The environment answers a call from the whole history, the call being
    answered last.  For an awaited call, [Raises] stands for a synchronous
    throw and for a rejected promise alike.  For a call whose promise the
    script drops, [Raises] is a synchronous throw only: a rejection of the
    dropped promise never reaches the caller and is a [Returns] here. *)
Definition environment : Type := list event -> reply.

(** Script state: the module-level [let dynamodb], the next fresh object
    identity, and the log of interactions so far. *)
Record world : Type := World {
  dynamodb : value;
  next_loc : nat;
  log : list event
}.

(** [let dynamodb = null], nothing allocated, nothing logged. *)
Definition initial_world : world := World VNull 0 [].

Inductive result (A : Type) : Type :=
| Normal (a : A)
| Thrown (e : value)
| OutOfFuel.

Arguments Normal {A} a.
Arguments Thrown {A} e.
Arguments OutOfFuel {A}.

Definition js (A : Type) : Type := world -> result A * world.

Definition ret {A : Type} (a : A) : js A := fun w => (Normal a, w).

Definition throw {A : Type} (e : value) : js A := fun w => (Thrown e, w).

Definition out_of_fuel {A : Type} : js A := fun w => (OutOfFuel, w).

Definition bind {A B : Type} (m : js A) (k : A -> js B) : js B :=
  fun w =>
    match m w with
    | (Normal a, w') => k a w'
    | (Thrown e, w') => (Thrown e, w')
    | (OutOfFuel, w') => (OutOfFuel, w')
    end.

Notation "x <- m ;; k" := (bind m (fun x => k))
  (at level 61, m at next level, right associativity).
Notation "m ;;; k" := (bind m (fun _ => k))
  (at level 61, right associativity).

(** [try { body } catch (err) { handler }] *)
Definition try_catch {A : Type} (body : js A) (handler : value -> js A) : js A :=
  fun w =>
    match body w with
    | (Thrown e, w') => handler e w'
    | other => other
    end.

(** What the runtime throws on [x.k] or [x.k(...)] with [x] null or
    undefined.  All such errors are one value here; their messages are not
    told apart. *)
Definition type_error : value := VStr "TypeError".

Definition record (ev : event) (w : world) : world :=
  World (dynamodb w) (next_loc w) (log w ++ [ev]).

Section Script.

Variable env : environment.

(** A call answered by the environment. *)
Definition call (f : callee) (args : list value) : js value :=
  fun w =>
    let w' := record (Call f args) w in
    match env (log w') with
    | Returns v => (Normal v, w')
    | Raises e => (Thrown e, w')
    end.

(** [receiver.name(args)] *)
Definition method (receiver : value) (name : string) (args : list value)
  : js value :=
  if nullish receiver then throw type_error
  else call (Method receiver name) args.

(** [v.k] *)
Definition get_prop (v : value) (k : string) : js value :=
  if nullish v then throw type_error else ret (prop_of v k).

(** [{}] for an object the library will fill: a fresh identity. *)
Definition new_object : js value :=
  fun w => (Normal (VRef (next_loc w)),
            World (dynamodb w) (S (next_loc w)) (log w)).

(** [xs.map((i) => i.k)] *)
Fixpoint map_prop (k : string) (items : list value) : js (list value) :=
  match items with
  | [] => ret []
  | x :: rest =>
    y <- get_prop x k ;;
    ys <- map_prop k rest ;;
    ret (y :: ys)
  end.

Definition array_map_prop (xs : value) (k : string) : js value :=
  match xs with
  | VArr items _ => ys <- map_prop k items ;; ret (arr ys)
  | _ => throw type_error
  end.

(** [console.error(err)] *)
Definition console_error (err : value) : js unit :=
  fun w => (Normal tt, record (Stderr err) w).

(** [delay(time)]: a promise resolved with [true] by a timer. *)
Definition delay (time : Z) : js value :=
  fun w => (Normal (VBool true), record (Sleep time) w).

(** Reading and assigning the module-level variable [dynamodb]. *)
Definition get_dynamodb : js value :=
  fun w => (Normal (dynamodb w), w).

Definition set_dynamodb (v : value) : js unit :=
  fun w => (Normal tt, World v (next_loc w) (log w)).

(** [const PORT = 4567] *)
Definition PORT : Z := 4567.

(** [start]: spawn the emulator, keep the child in [dynamodb], wait. *)
Definition start : js unit :=
  child <- call (Global "DynamoDbLocal.spawn") [VObj [("port", VNum PORT)]] ;;
  set_dynamodb child ;;;
  delay 1000 ;;;
  ret tt.

(** [stop]: [process.kill(dynamodb.pid)] *)
Definition stop : js unit :=
  child <- get_dynamodb ;;
  pid <- get_prop child "pid" ;;
  call (Global "process.kill") [pid] ;;;
  ret tt.

(** *** [test] *)

Definition road_runner_email : string * value :=
  ("email", VStr "roadrunner@acme.com").

(** The batch loop, lines 146-153.  [fuel] bounds the number of times
    the loop condition is evaluated. *)
Fixpoint batch_while (fuel : nat) (User : value) (i count : Z) (batch : value)
  : js (Z * Z * value) :=
  match fuel with
  | O => out_of_fuel
  | S fuel' =>
    let continue := (i <? 200)%Z in
    let i := (i + 1)%Z in
    if continue then
      method User "create"
        [VObj [("name", VStr ("user" ++ dec_string i));
               ("email", VStr ("user" ++ dec_string i ++ "@acme.com"))];
         VObj [("batch", batch)]] ;;;
      let count := (count + 1)%Z in
      if (count >=? 25)%Z then
        call (Global "table.batchWrite") [batch] ;;;
        batch <- new_object ;;
        batch_while fuel' User i 0%Z batch
      else
        batch_while fuel' User i count batch
    else
      ret (i, count, batch)
  end.

(** Lines 143-153: [let batch = {}], [let i = 0, count = 0] and the
    loop.  The result is [(i, count, batch)] as the loop leaves them. *)
Definition batch_block (fuel : nat) (User : value) : js (Z * Z * value) :=
  batch <- new_object ;;
  batch_while fuel User 0%Z 0%Z batch.

(** The paging loop, lines 163-167: [do { ... } while (users.start)].
    [fuel] bounds the number of pages read. *)
Fixpoint page_loop (fuel : nat) (User : value) (start : value) : js value :=
  match fuel with
  | O => out_of_fuel
  | S fuel' =>
    users <- method User "find"
               [VObj []; VObj [("start", start); ("limit", VNum 25)]] ;;
    start <- get_prop users "start" ;;
    again <- get_prop users "start" ;;
    if truthy again then page_loop fuel' User start else ret users
  end.

Definition test (fuel : nat) : js unit :=
  call (Global "table.createTable") [] ;;;
  Account <- call (Global "table.getModel") [VStr "Account"] ;;
  Invoice <- call (Global "table.getModel") [VStr "Invoice"] ;;
  Product <- call (Global "table.getModel") [VStr "Product"] ;;
  User <- call (Global "table.getModel") [VStr "User"] ;;
  account <- method Account "create" [VObj [("name", VStr "Acme Rockets")]] ;;
  account_id <- get_prop account "id" ;;
  call (Global "table.setContext") [VObj [("accountId", account_id)]] ;;;
  user <- method User "create"
            [VObj [("name", VStr "Road Runner"); road_runner_email;
                   ("address", VObj [])]] ;;
  user <- method User "get" [VObj [road_runner_email]] ;;
  user <- method User "get"
            [VObj [("name", VStr "Road Runner")];
             VObj [("index", VStr "gs1"); ("follow", VBool true)]] ;;
  users <- method User "find" [VObj []] ;;
  adminUsers <- method User "find" [VObj [("role", VStr "admin")]] ;;
  user <- method User "update"
            [VObj [road_runner_email; ("balance", VNum 0);
                   ("role", VStr "admin")]] ;;
  user <- method User "update"
            [VObj [road_runner_email];
             VObj [("set",
                    VObj [("address.zip",
                           VStr ("{" ++ dquote ++ "98034" ++ dquote ++ "}"))])]] ;;
  user <- method User "update" [VObj [road_runner_email; ("balance", VNum 110)]] ;;
  user <- method User "update"
            [VObj [road_runner_email];
             VObj [("add", VObj [("balance", VNum 10)])]] ;;
  user <- method User "update"
            [VObj [road_runner_email];
             VObj [("set", VObj [("balance", VStr "${balance} - {2}")])]] ;;
  account_id <- get_prop account "id" ;;
  users <- method User "find"
             [VObj [("accountId", account_id)];
              VObj [("where", VStr "${balance} > {100}")]] ;;
  account_id <- get_prop account "id" ;;
  collection <- call (Global "table.fetch")
                  [arr [VStr "Account"; VStr "User"; VStr "Invoice"];
                   VObj [("pk", VStr ("account#" ++ to_str account_id))]] ;;
  batch_block fuel User ;;;
  found <- method User "find"
             [VObj []; VObj [("fields", arr [VStr "email"; VStr "_type"])]] ;;
  items <- array_map_prop found "email" ;;
  users <- page_loop fuel User VUndefined ;;
  product <- method Product "create"
               [VObj [("name", VStr "rocket"); ("price", VDec 1099 2)]] ;;
  transaction <- new_object ;;
  product_name <- get_prop product "name" ;;
  product_price <- get_prop product "price" ;;
  method Invoice "create"
    [VObj [("product", product_name); ("count", VNum 1);
           ("total", product_price)];
     VObj [("transaction", transaction)]] ;;;
  product_price <- get_prop product "price" ;;
  method User "update"
    [VObj [road_runner_email];
     VObj [("add", VObj [("balance", product_price)]);
           ("transaction", transaction)]] ;;;
  account_id <- get_prop account "id" ;;
  product_price <- get_prop product "price" ;;
  method Account "update"
    [VObj [("id", account_id)];
     VObj [("add", VObj [("balance", product_price)]);
           ("transaction", transaction)]] ;;;
  result <- call (Global "table.transact") [VStr "write"; transaction] ;;
  account_id <- get_prop account "id" ;;
  collection <- call (Global "table.fetch")
                  [arr [VStr "Account"; VStr "User"; VStr "Invoice"];
                   VObj [("pk", VStr ("account#" ++ to_str account_id))]] ;;
  from <- call (Global "new Date") [] ;;
  month <- method from "getMonth" [] ;;
  method from "setMonth" [num_minus month 1] ;;;
  from_iso <- method from "toISOString" [] ;;
  now <- call (Global "new Date") [] ;;
  now_iso <- method now "toISOString" [] ;;
  invoices <- method Invoice "find"
                [VObj [("gs1sk",
                        VObj [("between",
                               arr [VStr ("invoice#" ++ to_str from_iso);
                                    VStr ("invoice#" ++ to_str now_iso)])])];
                 VObj [("index", VStr "gs1"); ("follow", VBool true)]] ;;
  accounts <- method Account "find" [VObj []; VObj [("index", VStr "gs1")]] ;;
  users <- method User "find" [VObj []; VObj [("index", VStr "gs1")]] ;;
  invoices <- method Invoice "find" [VObj []; VObj [("index", VStr "gs1")]] ;;
  call (Global "table.deleteTable") [VStr "DeleteTableForever"] ;;;
  ret tt.

(** [main] *)
Definition main (fuel : nat) : js unit :=
  start ;;;
  try_catch (test fuel) (fun err => console_error err) ;;;
  stop.

End Script.

(** ** Properties of computations *)

(** A computation that leaves the module-level [dynamodb] as it found it,
    however it ends. *)
Definition keeps_child {A : Type} (m : js A) : Prop :=
  forall w r w', m w = (r, w') -> dynamodb w' = dynamodb w.

(** Whenever [m] ends, by returning or by throwing, [m'] ends the same
    way in the same world. *)
Definition settles {A : Type} (m m' : js A) : Prop :=
  forall w r w', m w = (r, w') -> r <> OutOfFuel -> m' w = (r, w').

(** ** Reading the log *)

(** The environment never raises: every library and host call succeeds. *)
Definition never_raises (env : environment) : Prop :=
  forall history, exists v, env history = Returns v.

(** The call [DynamoDbLocal.spawn({port: PORT})] and the call
    [process.kill(child.pid)]. *)
Definition spawn_call : event :=
  Call (Global "DynamoDbLocal.spawn") [VObj [("port", VNum PORT)]].

Definition kill_call (child : value) : event :=
  Call (Global "process.kill") [prop_of child "pid"].

(** The call [User.create({name: `user${i}`, email: `user${i}@acme.com`}, {batch})]. *)
Definition create_call (User : value) (i : Z) (batch : value) : event :=
  Call (Method User "create")
    [VObj [("name", VStr ("user" ++ dec_string i));
           ("email", VStr ("user" ++ dec_string i ++ "@acme.com"))];
     VObj [("batch", batch)]].

(** The call [table.batchWrite(batch)]. *)
Definition write_call (batch : value) : event :=
  Call (Global "table.batchWrite") [batch].

(** [n] creations in a row, for users [i+1] to [i+n], on one batch. *)
Fixpoint creations (User : value) (batch : value) (i : Z) (n : nat) : list event :=
  match n with
  | O => []
  | S n' => create_call User (i + 1) batch :: creations User batch (i + 1) n'
  end.

(** [k] full rounds: 25 creations on a batch, the write of that batch,
    then the next batch object. *)
Fixpoint rounds (User : value) (loc : nat) (i : Z) (k : nat) : list event :=
  match k with
  | O => []
  | S k' =>
    creations User (VRef loc) i 25 ++ [write_call (VRef loc)]
    ++ rounds User (S loc) (i + 25) k'
  end.

(** The creations in a log, each as (name given to the user, batch object
    it was queued on). *)
Fixpoint queued (evs : list event) : list (value * value) :=
  match evs with
  | [] => []
  | Call (Method _ "create") [props; params] :: rest =>
    (prop_of props "name", prop_of params "batch") :: queued rest
  | _ :: rest => queued rest
  end.

(** The batch objects submitted by [table.batchWrite], in order. *)
Fixpoint submitted (evs : list event) : list value :=
  match evs with
  | [] => []
  | Call (Global "table.batchWrite") [batch] :: rest => batch :: submitted rest
  | _ :: rest => submitted rest
  end.

(** What eight rounds from user 0 put in the log: who was queued where,
    and which batches were written. *)
Definition queued_by_round (loc : nat) : list (value * value) :=
  flat_map
    (fun k => map (fun j => (VStr ("user" ++ dec_string (Z.of_nat (25 * k + j))),
                             VRef (k + loc)))
                  (seq 1 25))
    (seq 0 8).

(** ** Two environments to run the script in *)

Definition last_callee (history : list event) : string :=
  match last history (Sleep 0) with
  | Call (Global path) _ => path
  | Call (Method _ name) _ => name
  | _ => ""
  end.

(** Every call succeeds; [find] returns an empty last page, every other
    call an object with an [id] and a [pid]. *)
Definition calm_env : environment :=
  fun history =>
    if String.eqb (last_callee history) "find" then Returns (arr [])
    else Returns (VObj [("id", VStr "01HZX"); ("pid", VNum 4242)]).

(** As [calm_env], but the first [table.batchWrite] is refused. *)
Definition refusing_env : environment :=
  fun history =>
    if String.eqb (last_callee history) "table.batchWrite"
    then Raises (VStr "ProvisionedThroughputExceededException")
    else calm_env history.

(** ** More properties of computations *)

(** A computation that only ever appends to the log, never hands out an
    object identity twice, and throws nothing of its own making: what it
    throws is either the runtime's [type_error] or the value the
    environment raised on the call logged last. *)
Definition orderly (env : environment) {A : Type} (m : js A) : Prop :=
  forall w r w', m w = (r, w') ->
    (exists evs, log w' = (log w ++ evs)%list) /\
    next_loc w <= next_loc w' /\
    (forall e, r = Thrown e ->
       e = type_error \/
       exists hist f args,
         log w' = (hist ++ [Call f args])%list /\ env (log w') = Raises e).

(** A computation whose normal end is always right after the event [ev]. *)
Definition ends_with (ev : event) {A : Type} (m : js A) : Prop :=
  forall w a w', m w = (Normal a, w') ->
    exists hist, log w' = (hist ++ [ev])%list.

(** How [await f(...)] ends, by the environment's answer. *)
Definition outcome (r : reply) : result unit :=
  match r with
  | Returns _ => Normal tt
  | Raises e => Thrown e
  end.

(** The first and the last call of [test]. *)
Definition create_table_call : event := Call (Global "table.createTable") [].

Definition delete_table_call : event :=
  Call (Global "table.deleteTable") [VStr "DeleteTableForever"].

(** The call [User.find({}, {start, limit: 25})] of the paging loop. *)
Definition page_call (User : value) (start : value) : event :=
  Call (Method User "find")
    [VObj []; VObj [("start", start); ("limit", VNum 25)]].

(** The calls the batch loop issues from a given state when none of them
    fails, [loc] being the identity the next [{}] gets. *)
Fixpoint batch_plan (fuel : nat) (User : value) (i count : Z) (batch : value)
  (loc : nat) : list event :=
  match fuel with
  | O => []
  | S fuel' =>
    if (i <? 200)%Z then
      create_call User (i + 1) batch ::
      (if (count + 1 >=? 25)%Z
       then write_call batch :: batch_plan fuel' User (i + 1) 0%Z (VRef loc) (S loc)
       else batch_plan fuel' User (i + 1) (count + 1)%Z batch loc)
    else []
  end.

(** An environment that always has one more page: every answer is an
    object with a truthy [start]. *)
Definition always_more (env : environment) : Prop :=
  forall history, exists v,
    env history = Returns v /\ nullish v = false /\
    truthy (prop_of v "start") = true.

(** The environment answers the paging loop, asked first with cursor
    [start] after [hist], the pages [pages] one after the other: every
    page but the last names a next one. *)
Fixpoint answers_pages (env : environment) (hist : list event) (User : value)
  (start : value) (pages : list value) : Prop :=
  match pages with
  | [] => True
  | page :: rest =>
    env (hist ++ [page_call User start])%list = Returns page /\
    nullish page = false /\
    truthy (prop_of page "start") = negb (Nat.eqb (List.length rest) 0) /\
    answers_pages env (hist ++ [page_call User start])%list User
                  (prop_of page "start") rest
  end.

(** The calls that read [pages], the first with cursor [start]. *)
Fixpoint page_calls (User : value) (start : value) (pages : list value)
  : list event :=
  match pages with
  | [] => []
  | page :: rest =>
    page_call User start :: page_calls User (prop_of page "start") rest
  end.

(** Two pages that name a next one, then a last page. *)
Definition paged_env : environment :=
  fun history =>
    if Nat.ltb (List.length history) 3
    then Returns (VObj [("start", VNum (Z.of_nat (List.length history)))])
    else Returns (arr []).

(** ** More environments *)

(** Every call returns a page that names a next one. *)
Definition endless_env : environment :=
  fun _ => Returns (VObj [("start", VStr "next")]).

(** The emulator cannot be spawned. *)
Definition no_emulator_env : environment :=
  fun history =>
    if String.eqb (last_callee history) "DynamoDbLocal.spawn"
    then Raises (VStr "ENOENT")
    else calm_env history.

(** [spawn] returns [null]; everything else is calm. *)
Definition null_child_env : environment :=
  fun history =>
    if String.eqb (last_callee history) "DynamoDbLocal.spawn"
    then Returns VNull
    else calm_env history.

(** The emulator is gone by the time it is to be killed. *)
Definition vanished_env : environment :=
  fun history =>
    if String.eqb (last_callee history) "process.kill"
    then Raises (VStr "ESRCH")
    else refusing_env history.

(** ** The schema

    The object literal exported by the schema file, as a value.  Property
    order is the order of the source. *)

(** [const Match = {}]: every [Match.x] below is [undefined]. *)
Definition Match : value := VObj [].

Definition TString : value := VFun "String".
Definition TNumber : value := VFun "Number".
Definition TObject : value := VFun "Object".
Definition TDate : value := VFun "Date".

Definition Schema : value :=
  VObj [
    ("format", VStr "onetable:1.1.0");
    ("version", VStr "0.0.1");
    ("indexes", VObj [
      ("primary", VObj [("hash", VStr "pk"); ("sort", VStr "sk")]);
      ("gs1", VObj [("hash", VStr "gs1pk"); ("sort", VStr "gs1sk");
                    ("project", arr [VStr "gs1pk"; VStr "gs1sk"])])]);
    ("models", VObj [
      ("Account", VObj [
        ("pk", VObj [("type", TString); ("value", VStr "account#${id}")]);
        ("sk", VObj [("type", TString); ("value", VStr "account#")]);
        ("id", VObj [("type", TString); ("generate", VStr "ulid");
                     ("validate", prop_of Match "ulid")]);
        ("name", VObj [("type", TString); ("required", VBool true);
                       ("unique", VBool true);
                       ("validate", prop_of Match "name")]);
        ("balance", VObj [("type", TNumber); ("default", VNum 0)]);
        ("gs1pk", VObj [("type", TString); ("value", VStr "account#")]);
        ("gs1sk", VObj [("type", TString);
                        ("value", VStr "account#${name}${id}")])]);
      ("User", VObj [
        ("pk", VObj [("type", TString); ("value", VStr "account#${accountId}")]);
        ("sk", VObj [("type", TString); ("value", VStr "user#${email}")]);
        ("accountId", VObj [("type", TString); ("required", VBool true)]);
        ("id", VObj [("type", TString); ("generate", VStr "ulid");
                     ("validate", prop_of Match "ulid")]);
        ("name", VObj [("type", TString); ("required", VBool true);
                       ("validate", prop_of Match "name")]);
        ("email", VObj [("type", TString); ("required", VBool true);
                        ("validate", prop_of Match "email");
                        ("crypt", VBool true)]);
        ("role", VObj [("type", TString); ("default", VStr "user");
                       ("enum", arr [VStr "admin"; VStr "user"])]);
        ("address", VObj [
          ("type", TObject);
          ("default", VObj []);
          ("schema", VObj [
            ("street", VObj [("type", TString)]);
            ("city", VObj [("type", TString)]);
            ("zip", VObj [("type", TString)])])]);
        ("status", VObj [("type", TString); ("required", VBool true);
                         ("default", VStr "active");
                         ("enum", arr [VStr "active"; VStr "inactive"])]);
        ("balance", VObj [("type", TNumber); ("default", VNum 0)]);
        ("gs1pk", VObj [("type", TString); ("value", VStr "user#")]);
        ("gs1sk", VObj [("type", TString);
                        ("value", VStr "user#${name}#${id}")])]);
      ("Product", VObj [
        ("pk", VObj [("type", TString); ("value", VStr "product#${id}")]);
        ("sk", VObj [("type", TString); ("value", VStr "product#")]);
        ("id", VObj [("type", TString); ("generate", VStr "ulid");
                     ("validate", prop_of Match "ulid")]);
        ("name", VObj [("type", TString); ("required", VBool true)]);
        ("price", VObj [("type", TNumber); ("required", VBool true)]);
        ("gs1pk", VObj [("type", TString); ("value", VStr "product#")]);
        ("gs1sk", VObj [("type", TString);
                        ("value", VStr "product#${name}#${id}")])]);
      ("Invoice", VObj [
        ("pk", VObj [("type", TString); ("value", VStr "account#${accountId}")]);
        ("sk", VObj [("type", TString); ("value", VStr "invoice#${id}")]);
        ("accountId", VObj [("type", TString); ("required", VBool true)]);
        ("date", VObj [("type", TDate)]);
        ("id", VObj [("type", TString); ("generate", VStr "ulid")]);
        ("product", VObj [("type", TString)]);
        ("count", VObj [("type", TNumber)]);
        ("total", VObj [("type", TNumber)]);
        ("gs1pk", VObj [("type", TString); ("value", VStr "invoice#")]);
        ("gs1sk", VObj [("type", TString);
                        ("value", VStr "invoice#${date}#${id}")])])]);
    ("params", VObj [("isoDates", VBool true); ("timestamps", VBool true)])
  ].

(** [v.k1.k2...], [undefined] propagating. *)
Definition at_path (v : value) (path : list string) : value :=
  fold_left prop_of path v.

(** The field [f] of model [m], and its attribute [a]. *)
Definition field_of (m f : string) : value :=
  at_path Schema ["models"; m; f].

Definition attribute (m f a : string) : value :=
  prop_of (field_of m f) a.

(** An attribute that is absent, [undefined] or [false] is off. *)
Definition flag_on (m f a : string) : bool :=
  truthy (attribute m f a).

(** The names between [${] and [}] in a value template, in order. *)
Fixpoint template_scan (s : string) (inside : option string) : list string :=
  match inside, s with
  | _, EmptyString => []
  | None, String a rest =>
    match rest with
    | String b rest' =>
      if andb (Ascii.eqb a "$") (Ascii.eqb b "{")
      then template_scan rest' (Some "")
      else template_scan rest None
    | EmptyString => []
    end
  | Some name, String a rest =>
    if Ascii.eqb a "}" then name :: template_scan rest None
    else template_scan rest (Some (name ++ String a EmptyString))
  end.

Definition template_vars (template : value) : list string :=
  match template with
  | VStr s => template_scan s None
  | _ => []
  end.

(** The attribute names that make up the key of index [ix]. *)
Definition index_key (ix : string) : value * value :=
  (at_path Schema ["indexes"; ix; "hash"],
   at_path Schema ["indexes"; ix; "sort"]).

(** The model fields an item's key in index [ix] is computed from: the
    variables of the hash template, then those of the sort template. *)
Definition key_fields (m ix : string) : list string * list string :=
  let '(h, s) := index_key ix in
  (template_vars (attribute m (to_str h) "value"),
   template_vars (attribute m (to_str s) "value")).

(** ** Walking the schema *)

(** The property names of an object, in order. *)
Definition keys_of (v : value) : list string :=
  match v with
  | VObj props => map fst props
  | _ => []
  end.

Definition model_names : list string := keys_of (at_path Schema ["models"]).

Definition index_names : list string := keys_of (at_path Schema ["indexes"]).

(** Model [m] declares a field [f]. *)
Definition declares (m f : string) : bool :=
  existsb (String.eqb f) (keys_of (at_path Schema ["models"; m])).

(** The two attributes that hold an item's key in index [ix]. *)
Definition key_attributes (ix : string) : list string :=
  let '(h, s) := index_key ix in [to_str h; to_str s].

(** The type tag of a model: its constant hash key in the [gs1] index. *)
Definition type_tag (m : string) : string :=
  to_str (attribute m "gs1pk" "value").

(** The fields a model requires. *)
Definition required_fields (m : string) : list string :=
  filter (fun f => truthy (attribute m f "required"))
         (keys_of (at_path Schema ["models"; m])).

(** The properties a call passes in its first argument. *)
Definition passed_props (ev : event) : list string :=
  match ev with
  | Call _ (props :: _) => keys_of props
  | _ => []
  end.

(** Whether a field has a default in the schema. *)
Definition has_default (m f : string) : bool :=
  match attribute m f "default" with
  | VUndefined => false
  | _ => true
  end.

End Overview.

(* ================================================================== *)
(** * Properties of the bit-flag demo *)
(* ================================================================== *)

Module BitFlagsSpec.

Import BitFlags.
Local Open Scope Z_scope.

(** ** Bits of the word operations *)

Lemma uint_bits_pos ws : 0 < uint_bits ws.
Proof. destruct ws; reflexivity. Qed.

Lemma modulus_pos ws : 0 < modulus ws.
Proof. destruct ws; reflexivity. Qed.

Lemma testbit_wrap ws z i :
  Z.testbit (wrap ws z) i = (i <? uint_bits ws) && Z.testbit z i.
Proof.
  unfold wrap, modulus. apply Z.testbit_mod_pow2.
  pose proof (uint_bits_pos ws). lia.
Qed.

Lemma wrap_range ws z : is_uint ws (wrap ws z).
Proof.
  unfold is_uint, wrap. apply Z.mod_pos_bound. apply modulus_pos.
Qed.

Lemma wrap_uint ws z : is_uint ws z -> wrap ws z = z.
Proof. unfold is_uint, wrap. intros H. apply Z.mod_small. exact H. Qed.

(** A [uint] has no bit at or above the word size. *)
Lemma uint_high_bits ws v i :
  is_uint ws v -> uint_bits ws <= i -> Z.testbit v i = false.
Proof.
  intros Hv Hi. rewrite <- (wrap_uint ws v Hv), testbit_wrap.
  replace (i <? uint_bits ws) with false by (symmetry; apply Z.ltb_ge; exact Hi).
  reflexivity.
Qed.

Lemma uint_low_mask ws v i :
  is_uint ws v -> (i <? uint_bits ws) && Z.testbit v i = Z.testbit v i.
Proof.
  intros Hv. rewrite <- testbit_wrap, (wrap_uint ws v Hv). reflexivity.
Qed.

(** Conversely, a non-negative integer with no high bit is a [uint]. *)
Lemma uint_of_bits ws v :
  0 <= v ->
  (forall i, uint_bits ws <= i -> Z.testbit v i = false) ->
  is_uint ws v.
Proof.
  intros Hv Hhigh.
  assert (E : wrap ws v = v).
  { apply Z.bits_inj'. intros i Hi. rewrite testbit_wrap.
    destruct (Z.ltb_spec i (uint_bits ws)) as [Hlt | Hge]; [reflexivity |].
    simpl. symmetry. apply Hhigh. exact Hge. }
  rewrite <- E. apply wrap_range.
Qed.

Lemma testbit_flag k i :
  0 <= k -> Z.testbit (flag_of_iota k) i = (k =? i).
Proof.
  intros Hk. unfold flag_of_iota. rewrite Z.shiftl_1_l.
  apply Z.pow2_bits_eqb. exact Hk.
Qed.

Lemma testbit_uint_not ws x i :
  0 <= i ->
  Z.testbit (uint_not ws x) i = (i <? uint_bits ws) && negb (Z.testbit x i).
Proof.
  intros Hi. unfold uint_not. rewrite testbit_wrap, Z.lnot_spec by exact Hi.
  reflexivity.
Qed.

(** [x &^ y] keeps the bits of [x] that [y] lacks. *)
Lemma testbit_andnot ws x y i :
  is_uint ws x -> 0 <= i ->
  Z.testbit (uint_andnot ws x y) i = Z.testbit x i && negb (Z.testbit y i).
Proof.
  intros Hx Hi. unfold uint_andnot.
  rewrite Z.land_spec, testbit_uint_not by exact Hi.
  rewrite Bool.andb_assoc, (Bool.andb_comm (Z.testbit x i)).
  rewrite (uint_low_mask ws x i Hx). reflexivity.
Qed.

Lemma land_nonneg_l x y : 0 <= x -> 0 <= Z.land x y.
Proof. intros Hx. apply Z.land_nonneg. left. exact Hx. Qed.

Lemma uint_and_range ws x y : is_uint ws x -> is_uint ws (uint_and x y).
Proof.
  intros Hx. unfold uint_and. apply uint_of_bits.
  - apply land_nonneg_l. apply Hx.
  - intros i Hi. rewrite Z.land_spec, (uint_high_bits ws x i Hx Hi). reflexivity.
Qed.

Lemma uint_andnot_range ws x y : is_uint ws x -> is_uint ws (uint_andnot ws x y).
Proof. intros Hx. unfold uint_andnot. apply (uint_and_range ws x _ Hx). Qed.

Lemma uint_or_range ws x y :
  is_uint ws x -> is_uint ws y -> is_uint ws (uint_or x y).
Proof.
  intros Hx Hy. unfold uint_or. apply uint_of_bits.
  - apply Z.lor_nonneg. split; [apply Hx | apply Hy].
  - intros i Hi.
    rewrite Z.lor_spec, (uint_high_bits ws x i Hx Hi), (uint_high_bits ws y i Hy Hi).
    reflexivity.
Qed.

Lemma flag_is_uint ws k : 0 <= k < 32 -> is_uint ws (flag_of_iota k).
Proof.
  intros Hk. unfold flag_of_iota. rewrite Z.shiftl_1_l.
  unfold is_uint, modulus. split.
  - apply Z.pow_nonneg. lia.
  - apply Z.pow_lt_mono_r; destruct ws; simpl; lia.
Qed.

(** Bits of the two mutators. *)
Lemma testbit_TurnDown ws v i :
  is_uint ws v -> 0 <= i ->
  Z.testbit (TurnDown ws v) i = Z.testbit v i && negb (0 =? i).
Proof.
  intros Hv Hi. unfold TurnDown, FlagUp.
  rewrite testbit_andnot, testbit_flag by (assumption || lia). reflexivity.
Qed.

Lemma testbit_SetBroadcast v i :
  Z.testbit (SetBroadcast v) i = Z.testbit v i || (1 =? i).
Proof.
  unfold SetBroadcast, uint_or, FlagBroadcast.
  rewrite Z.lor_spec, testbit_flag by lia. reflexivity.
Qed.

Lemma TurnDown_range ws v : is_uint ws v -> is_uint ws (TurnDown ws v).
Proof. apply uint_andnot_range. Qed.

Lemma SetBroadcast_range ws v : is_uint ws v -> is_uint ws (SetBroadcast v).
Proof.
  intros Hv. apply uint_or_range; [exact Hv | apply flag_is_uint; lia].
Qed.

(** Two integers agree when they agree on every non-negative bit. *)
Ltac bitwise i Hi := apply Z.bits_inj'; intros i Hi.

(** ** Clearing and setting one flag *)

(** Clearing then setting the bits of [b] is the same as setting them. *)
Lemma andnot_then_or ws v b :
  is_uint ws v -> uint_or (uint_andnot ws v b) b = uint_or v b.
Proof.
  intros Hv. unfold uint_or. bitwise i Hi.
  rewrite !Z.lor_spec, testbit_andnot by assumption.
  destruct (Z.testbit v i), (Z.testbit b i); reflexivity.
Qed.

(** [v | b == v] says the same as [v & b == b]: [v] has every bit of [b]. *)
Lemma or_absorbs_iff v b : uint_or v b = v <-> uint_and v b = b.
Proof.
  unfold uint_or, uint_and. split; intros H; bitwise i Hi.
  - assert (Hb : Z.testbit (Z.lor v b) i = Z.testbit v i) by (rewrite H; reflexivity).
    rewrite Z.lor_spec in Hb. rewrite Z.land_spec.
    destruct (Z.testbit v i), (Z.testbit b i); simpl in *; congruence.
  - assert (Hb : Z.testbit (Z.land v b) i = Z.testbit b i) by (rewrite H; reflexivity).
    rewrite Z.land_spec in Hb. rewrite Z.lor_spec.
    destruct (Z.testbit v i), (Z.testbit b i); simpl in *; congruence.
Qed.

(** C1, as stated, fails: with [FlagUp] clear in [v = FlagMulticast] (the
    value [main] holds after [TurnDown]), AND-NOT of [FlagUp] followed by
    OR of [FlagUp] gives 17, not the original 16. *)
Lemma andnot_or_not_identity :
  is_uint W64 FlagMulticast /\
  uint_or (uint_andnot W64 FlagMulticast FlagUp) FlagUp <> FlagMulticast.
Proof.
  split.
  - apply flag_is_uint. lia.
  - vm_compute. discriminate.
Qed.

(** C1, amended: for all flag values [v] and [b], AND-NOT of [b] followed
    by OR of [b] yields [v | b]; it restores [v] exactly when [v] already
    has every bit of [b] set ([v & b == b]). *)
Theorem andnot_or_restores_iff_set ws (v b : Flags) :
  is_uint ws v -> is_uint ws b ->
  uint_or (uint_andnot ws v b) b = uint_or v b /\
  (uint_or (uint_andnot ws v b) b = v <-> uint_and v b = b).
Proof.
  intros Hv _. split.
  - apply andnot_then_or. exact Hv.
  - rewrite (andnot_then_or ws v b Hv). apply or_absorbs_iff.
Qed.

Lemma andnot_or_restores_iff_set_witness :
  uint_or (uint_andnot W32 17 FlagUp) FlagUp = uint_or 17 FlagUp /\
  (uint_or (uint_andnot W32 17 FlagUp) FlagUp = 17 <-> uint_and 17 FlagUp = FlagUp).
Proof.
  apply (andnot_or_restores_iff_set W32 17 FlagUp); vm_compute; split; congruence.
Defined.

(** C2: [TurnDown] clears exactly the [FlagUp] bit (bit 0): afterwards
    [IsUp] is false, bit 0 is clear and every other bit is as before. *)
Theorem TurnDown_clears_exactly_up ws (v : Flags) :
  is_uint ws v ->
  IsUp (TurnDown ws v) = false /\
  Z.testbit (TurnDown ws v) 0 = false /\
  (forall i, i <> 0 -> Z.testbit (TurnDown ws v) i = Z.testbit v i) /\
  is_uint ws (TurnDown ws v).
Proof.
  intros Hv. split; [| split; [| split]].
  - unfold IsUp, uint_and.
    assert (E : Z.land (TurnDown ws v) FlagUp = 0).
    { bitwise i Hi.
      rewrite Z.land_spec, testbit_TurnDown, Z.bits_0 by assumption.
      unfold FlagUp. rewrite testbit_flag by lia.
      destruct (Z.testbit v i), (Z.eqb_spec 0 i); reflexivity. }
    rewrite E. reflexivity.
  - rewrite testbit_TurnDown by (assumption || lia).
    apply Bool.andb_false_r.
  - intros i Hi. destruct (Z.lt_ge_cases i 0) as [Hneg | Hpos].
    + rewrite !Z.testbit_neg_r by exact Hneg. reflexivity.
    + rewrite testbit_TurnDown by assumption.
      destruct (Z.eqb_spec 0 i); [lia | apply Bool.andb_true_r].
  - apply TurnDown_range; exact Hv.
Qed.

Lemma TurnDown_clears_exactly_up_witness :
  IsUp (TurnDown W64 17) = false /\
  Z.testbit (TurnDown W64 17) 0 = false /\
  (forall i, i <> 0 -> Z.testbit (TurnDown W64 17) i = Z.testbit 17 i) /\
  is_uint W64 (TurnDown W64 17).
Proof.
  apply (TurnDown_clears_exactly_up W64 17). vm_compute. split; congruence.
Defined.

(** C3: on a value that lacks [FlagBroadcast], [SetBroadcast] sets exactly
    that bit (bit 1): the result is the old value OR [FlagBroadcast], which
    is the old value plus 2; bit 1 goes from clear to set and every other
    bit is as before. *)
Theorem SetBroadcast_sets_exactly_broadcast ws (v : Flags) :
  is_uint ws v ->
  uint_and v FlagBroadcast = 0 ->
  SetBroadcast v = uint_or v FlagBroadcast /\
  SetBroadcast v = v + FlagBroadcast /\
  Z.testbit v 1 = false /\
  Z.testbit (SetBroadcast v) 1 = true /\
  (forall i, i <> 1 -> Z.testbit (SetBroadcast v) i = Z.testbit v i) /\
  is_uint ws (SetBroadcast v).
Proof.
  intros Hv Hlack. unfold uint_and in Hlack.
  split; [reflexivity |]. split; [| split; [| split; [| split]]].
  - unfold SetBroadcast, uint_or.
    rewrite (Z.add_nocarry_lxor _ _ Hlack). symmetry.
    apply Z.lxor_lor. exact Hlack.
  - assert (Hb : Z.testbit (Z.land v FlagBroadcast) 1 = false)
      by (rewrite Hlack; apply Z.bits_0).
    rewrite Z.land_spec in Hb. unfold FlagBroadcast in Hb.
    rewrite testbit_flag in Hb by lia.
    change (1 =? 1) with true in Hb.
    rewrite Bool.andb_true_r in Hb. exact Hb.
  - rewrite testbit_SetBroadcast. apply Bool.orb_true_r.
  - intros i Hi. rewrite testbit_SetBroadcast.
    destruct (Z.eqb_spec 1 i); [lia | apply Bool.orb_false_r].
  - apply SetBroadcast_range; exact Hv.
Qed.

Lemma SetBroadcast_sets_exactly_broadcast_witness :
  SetBroadcast 16 = uint_or 16 FlagBroadcast /\
  SetBroadcast 16 = 16 + FlagBroadcast /\
  Z.testbit 16 1 = false /\
  Z.testbit (SetBroadcast 16) 1 = true /\
  (forall i, i <> 1 -> Z.testbit (SetBroadcast 16) i = Z.testbit 16 i) /\
  is_uint W64 (SetBroadcast 16).
Proof.
  apply (SetBroadcast_sets_exactly_broadcast W64 16).
  - vm_compute. split; congruence.
  - reflexivity.
Defined.

(** C8: [IsCast v] is true exactly when [v] has the [FlagBroadcast] bit
    (bit 1) or the [FlagMulticast] bit (bit 4); it is false on [FlagUp]
    alone and true on every value with [FlagMulticast] set. *)
Theorem IsCast_iff_broadcast_or_multicast ws (v : Flags) :
  is_uint ws v ->
  (IsCast v = true <-> Z.testbit v 1 = true \/ Z.testbit v 4 = true) /\
  IsCast FlagUp = false /\
  (uint_and v FlagMulticast = FlagMulticast -> IsCast v = true).
Proof.
  intros _.
  assert (Hbits : forall i, Z.testbit (uint_or FlagBroadcast FlagMulticast) i
                            = (1 =? i) || (4 =? i)).
  { intros i. unfold uint_or, FlagBroadcast, FlagMulticast.
    rewrite Z.lor_spec, !testbit_flag by lia. reflexivity. }
  assert (Hiff : IsCast v = true <-> Z.testbit v 1 = true \/ Z.testbit v 4 = true).
  { unfold IsCast, uint_and. rewrite Bool.negb_true_iff, Z.eqb_neq. split.
    - intros Hne.
      destruct (Z.testbit v 1) eqn:E1; [left; reflexivity |].
      destruct (Z.testbit v 4) eqn:E4; [right; reflexivity |].
      exfalso. apply Hne. bitwise i Hi.
      rewrite Z.land_spec, Hbits, Z.bits_0.
      destruct (Z.eqb_spec 1 i) as [<- | _]; [rewrite E1; reflexivity |].
      destruct (Z.eqb_spec 4 i) as [<- | _]; [rewrite E4; reflexivity |].
      apply Bool.andb_false_r.
    - intros Hset Hzero.
      assert (H1 : Z.testbit (Z.land v (uint_or FlagBroadcast FlagMulticast)) 1 = false)
        by (rewrite Hzero; apply Z.bits_0).
      assert (H4 : Z.testbit (Z.land v (uint_or FlagBroadcast FlagMulticast)) 4 = false)
        by (rewrite Hzero; apply Z.bits_0).
      rewrite Z.land_spec, Hbits in H1, H4.
      change ((1 =? 1) || (4 =? 1)) with true in H1.
      change ((1 =? 4) || (4 =? 4)) with true in H4.
      rewrite Bool.andb_true_r in H1, H4.
      destruct Hset; congruence. }
  split; [exact Hiff | split; [reflexivity |]].
  intros Hm. apply Hiff. right.
  assert (Hb : Z.testbit (uint_and v FlagMulticast) 4 = true).
  { rewrite Hm. unfold FlagMulticast. rewrite testbit_flag by lia. reflexivity. }
  unfold uint_and in Hb. rewrite Z.land_spec in Hb.
  apply Bool.andb_true_iff in Hb. apply Hb.
Qed.

Lemma IsCast_iff_broadcast_or_multicast_witness :
  (IsCast 17 = true <-> Z.testbit 17 1 = true \/ Z.testbit 17 4 = true) /\
  IsCast FlagUp = false /\
  (uint_and 17 FlagMulticast = FlagMulticast -> IsCast 17 = true).
Proof.
  apply (IsCast_iff_broadcast_or_multicast W64 17). vm_compute. split; congruence.
Defined.

(** C9: [TurnDown] and [SetBroadcast] are each idempotent, and they
    commute. *)
Theorem TurnDown_SetBroadcast_idempotent_commute ws (v : Flags) :
  is_uint ws v ->
  TurnDown ws (TurnDown ws v) = TurnDown ws v /\
  SetBroadcast (SetBroadcast v) = SetBroadcast v /\
  SetBroadcast (TurnDown ws v) = TurnDown ws (SetBroadcast v).
Proof.
  intros Hv.
  pose proof (TurnDown_range ws v Hv) as Hd.
  pose proof (SetBroadcast_range ws v Hv) as Hs.
  split; [| split]; bitwise i Hi.
  - rewrite !testbit_TurnDown by assumption.
    destruct (Z.testbit v i), (0 =? i); reflexivity.
  - rewrite !testbit_SetBroadcast.
    destruct (Z.testbit v i), (1 =? i); reflexivity.
  - rewrite testbit_SetBroadcast, !testbit_TurnDown, testbit_SetBroadcast
      by assumption.
    destruct (Z.eqb_spec 0 i), (Z.eqb_spec 1 i); try lia;
      destruct (Z.testbit v i); reflexivity.
Qed.

Lemma TurnDown_SetBroadcast_idempotent_commute_witness :
  TurnDown W32 (TurnDown W32 17) = TurnDown W32 17 /\
  SetBroadcast (SetBroadcast 17) = SetBroadcast 17 /\
  SetBroadcast (TurnDown W32 17) = TurnDown W32 (SetBroadcast 17).
Proof.
  apply (TurnDown_SetBroadcast_idempotent_commute W32 17).
  vm_compute. split; congruence.
Defined.

(** ** [main] *)

(** C5: after the flag-helper calls, [main] applies to [a = 1] and
    [b = 10] the operations AND, OR, XOR, shift left by 2, shift right by
    2, in this order, assigning each result to [c] and printing it; the
    successive values of [c] are 0, 11, 11, 4, 0. *)
Theorem main_arith_sequence ws :
  let s := main_flags ws main_init in
  var_a s = 1 /\ var_b s = 10 /\
  map var_c (arith_trace ws s)
  = [uint_and 1 10; uint_or 1 10; uint_xor 1 10; uint_shl ws 1 2; uint_shr 1 2] /\
  map var_c (arith_trace ws s) = [0; 11; 11; 4; 0] /\
  last (arith_trace ws s) s = main ws /\
  stdout (main ws)
  = stdout s ++ [ "Line 1 - Value of c is 0"; "Line 2 - Value of c is 11";
                  "Line 3 - Value of c is 11"; "Line 4 - Value of c is 4";
                  "Line 5 - Value of c is 0" ]%string.
Proof.
  destruct ws; vm_compute; repeat split; reflexivity.
Qed.

(** What the whole program prints. *)
Lemma main_stdout ws :
  stdout (main ws)
  = [ "10001 17"; "10001 true"; "10000 false"; "10010 false"; "10010 true";
      "Line 1 - Value of c is 0"; "Line 2 - Value of c is 11";
      "Line 3 - Value of c is 11"; "Line 4 - Value of c is 4";
      "Line 5 - Value of c is 0" ]%string.
Proof. destruct ws; vm_compute; reflexivity. Qed.

(** ** Reading the flags *)

(** [IsUp] reads bit 0. *)
Lemma IsUp_testbit v : IsUp v = Z.testbit v 0.
Proof.
  unfold IsUp, uint_and, FlagUp.
  change (flag_of_iota 0) with (Z.ones 1).
  rewrite Z.land_ones by lia. change (2 ^ 1) with 2.
  rewrite Zmod_odd, Z.bit0_odd. destruct (Z.odd v); reflexivity.
Qed.

(** [IsCast] reads bits 1 and 4. *)
Lemma IsCast_testbit v : IsCast v = Z.testbit v 1 || Z.testbit v 4.
Proof.
  unfold IsCast, uint_and.
  assert (Hmask : forall i, Z.testbit (uint_or FlagBroadcast FlagMulticast) i
                            = (1 =? i) || (4 =? i)).
  { intros i. unfold uint_or, FlagBroadcast, FlagMulticast.
    rewrite Z.lor_spec, !testbit_flag by lia. reflexivity. }
  destruct (Z.eqb_spec (Z.land v (uint_or FlagBroadcast FlagMulticast)) 0)
    as [Hzero | Hne]; cbn [negb].
  - assert (H1 : Z.testbit (Z.land v (uint_or FlagBroadcast FlagMulticast)) 1 = false)
      by (rewrite Hzero; apply Z.bits_0).
    assert (H4 : Z.testbit (Z.land v (uint_or FlagBroadcast FlagMulticast)) 4 = false)
      by (rewrite Hzero; apply Z.bits_0).
    rewrite Z.land_spec, Hmask in H1, H4.
    change ((1 =? 1) || (4 =? 1)) with true in H1.
    change ((1 =? 4) || (4 =? 4)) with true in H4.
    rewrite Bool.andb_true_r in H1, H4. rewrite H1, H4. reflexivity.
  - destruct (Z.testbit v 1) eqn:E1; [reflexivity |].
    destruct (Z.testbit v 4) eqn:E4; [reflexivity |].
    exfalso. apply Hne. bitwise i Hi.
    rewrite Z.land_spec, Hmask, Z.bits_0.
    destruct (Z.eqb_spec 1 i) as [<- | _]; [rewrite E1; reflexivity |].
    destruct (Z.eqb_spec 4 i) as [<- | _]; [rewrite E4; reflexivity |].
    apply Bool.andb_false_r.
Qed.

(** The part of [v] inside a mask and the part outside add up to [v]. *)
Lemma andnot_plus_and ws v b :
  is_uint ws v -> uint_andnot ws v b + uint_and v b = v.
Proof.
  intros Hv.
  assert (Hdisjoint : Z.land (uint_andnot ws v b) (uint_and v b) = 0).
  { bitwise i Hi. unfold uint_and.
    rewrite !Z.land_spec, testbit_andnot, Z.bits_0 by assumption.
    destruct (Z.testbit v i), (Z.testbit b i); reflexivity. }
  rewrite (Z.add_nocarry_lxor _ _ Hdisjoint), (Z.lxor_lor _ _ Hdisjoint).
  bitwise i Hi. unfold uint_and.
  rewrite Z.lor_spec, Z.land_spec, testbit_andnot by assumption.
  destruct (Z.testbit v i), (Z.testbit b i); reflexivity.
Qed.

Lemma land_FlagUp v : uint_and v FlagUp = if IsUp v then 1 else 0.
Proof.
  rewrite IsUp_testbit. unfold uint_and, FlagUp.
  change (flag_of_iota 0) with (Z.ones 1).
  rewrite Z.land_ones by lia. change (2 ^ 1) with 2.
  rewrite Zmod_odd, Z.bit0_odd. reflexivity.
Qed.

(** X1: [IsUp v] is bit 0 of [v], that is, [v] is odd; no other bit of
    [v] matters. *)
Theorem IsUp_is_bit0 (v : Flags) :
  IsUp v = Z.testbit v 0 /\
  IsUp v = Z.odd v /\
  (forall v', Z.testbit v' 0 = Z.testbit v 0 -> IsUp v' = IsUp v).
Proof.
  split; [apply IsUp_testbit |]. split.
  - rewrite IsUp_testbit. apply Z.bit0_odd.
  - intros v' H. rewrite !IsUp_testbit. exact H.
Qed.

(** X2: as a number, [TurnDown] subtracts 1 from a value that is up and
    leaves a value that is down as it is; the result is never larger than
    the argument. *)
Theorem TurnDown_subtracts_up ws (v : Flags) :
  is_uint ws v ->
  TurnDown ws v = (if IsUp v then v - 1 else v) /\
  TurnDown ws v <= v.
Proof.
  intros Hv.
  assert (E : TurnDown ws v = if IsUp v then v - 1 else v).
  { pose proof (andnot_plus_and ws v FlagUp Hv) as Hsum.
    rewrite land_FlagUp in Hsum. unfold TurnDown.
    destruct (IsUp v); lia. }
  split; [exact E |]. rewrite E. destruct (IsUp v); lia.
Qed.

Lemma TurnDown_subtracts_up_witness :
  TurnDown W32 17 = (if IsUp 17 then 17 - 1 else 17) /\ TurnDown W32 17 <= 17.
Proof.
  apply (TurnDown_subtracts_up W32 17). vm_compute. split; congruence.
Defined.

(** X3: as a number, [SetBroadcast] adds 2 to a value without the
    broadcast bit and leaves a value that has it as it is. *)
Theorem SetBroadcast_adds_two_once (v : Flags) :
  SetBroadcast v = if Z.testbit v 1 then v else v + 2.
Proof.
  destruct (Z.testbit v 1) eqn:E.
  - bitwise i Hi. rewrite testbit_SetBroadcast.
    destruct (Z.eqb_spec 1 i) as [<- | _];
      [rewrite E; reflexivity | apply Bool.orb_false_r].
  - assert (Hlack : Z.land v FlagBroadcast = 0).
    { bitwise i Hi. unfold FlagBroadcast.
      rewrite Z.land_spec, testbit_flag, Z.bits_0 by lia.
      destruct (Z.eqb_spec 1 i) as [<- | _];
        [rewrite E; reflexivity | apply Bool.andb_false_r]. }
    change (v + 2) with (v + FlagBroadcast).
    rewrite (Z.add_nocarry_lxor _ _ Hlack). symmetry.
    apply Z.lxor_lor. exact Hlack.
Qed.

(** X4: the two mutators and the two tests do not interfere:
    [SetBroadcast] leaves [IsUp] as it was and makes [IsCast] true;
    [TurnDown] leaves [IsCast] as it was. *)
Theorem mutators_and_tests_independent ws (v : Flags) :
  is_uint ws v ->
  IsUp (SetBroadcast v) = IsUp v /\
  IsCast (SetBroadcast v) = true /\
  IsCast (TurnDown ws v) = IsCast v.
Proof.
  intros Hv. split; [| split].
  - rewrite !IsUp_testbit, testbit_SetBroadcast. apply Bool.orb_false_r.
  - rewrite IsCast_testbit, !testbit_SetBroadcast.
    change (1 =? 1) with true. rewrite Bool.orb_true_r. reflexivity.
  - rewrite !IsCast_testbit, !testbit_TurnDown by (assumption || lia).
    change (0 =? 1) with false. change (0 =? 4) with false.
    rewrite !Bool.andb_true_r. reflexivity.
Qed.

Lemma mutators_and_tests_independent_witness :
  IsUp (SetBroadcast 17) = IsUp 17 /\
  IsCast (SetBroadcast 17) = true /\
  IsCast (TurnDown W64 17) = IsCast 17.
Proof.
  apply (mutators_and_tests_independent W64 17). vm_compute. split; congruence.
Defined.

(** ** [main] on any starting values *)

Lemma uint_xor_range ws x y :
  is_uint ws x -> is_uint ws y -> is_uint ws (uint_xor x y).
Proof.
  intros Hx Hy. unfold uint_xor. apply uint_of_bits.
  - apply Z.lxor_nonneg. split; intros _; [apply Hy | apply Hx].
  - intros i Hi.
    rewrite Z.lxor_spec, (uint_high_bits ws x i Hx Hi), (uint_high_bits ws y i Hy Hi).
    reflexivity.
Qed.

Lemma uint_shr_range ws x n : is_uint ws x -> 0 <= n -> is_uint ws (uint_shr x n).
Proof.
  intros Hx Hn. unfold uint_shr. rewrite Z.shiftr_div_pow2 by exact Hn.
  unfold is_uint in *.
  assert (0 < 2 ^ n) by (apply Z.pow_pos_nonneg; lia).
  split.
  - apply Z.div_pos; lia.
  - apply Z.le_lt_trans with x; [| lia].
    apply Z.div_le_upper_bound; nia.
Qed.

(** X5: the flag part of [main], started on any flag value [v]: it leaves
    [a], [b] and [c] alone, ends with [v] down and broadcasting, and prints
    five lines, of which the third and fourth report [IsUp] false and the
    fifth reports [IsCast] true. *)
Theorem main_flags_on_any_value ws (s : main_state) :
  is_uint ws (var_v s) ->
  let v := var_v s in
  let down := TurnDown ws v in
  let cast := SetBroadcast down in
  let s' := main_flags ws s in
  var_a s' = var_a s /\ var_b s' = var_b s /\ var_c s' = var_c s /\
  var_v s' = cast /\
  is_uint ws cast /\
  IsUp cast = false /\ IsCast cast = true /\
  stdout s' = stdout s ++ [ line_bd v; line_bt v (IsUp v);
                            line_bt down false; line_bt cast false;
                            line_bt cast true ].
Proof.
  destruct s as [a0 b0 c0 v0 out].
  intros Hv v down cast s'. cbn [var_v] in Hv, v.
  assert (Hdown : is_uint ws down) by (apply TurnDown_range; exact Hv).
  assert (Hup_down : IsUp down = false).
  { unfold down. rewrite IsUp_testbit, testbit_TurnDown by (assumption || lia).
    apply Bool.andb_false_r. }
  assert (Hup_cast : IsUp cast = false).
  { unfold cast. rewrite IsUp_testbit, testbit_SetBroadcast, <- IsUp_testbit.
    rewrite Hup_down. reflexivity. }
  assert (Hcast : IsCast cast = true).
  { unfold cast. rewrite IsCast_testbit, !testbit_SetBroadcast.
    change (1 =? 1) with true. rewrite Bool.orb_true_r. reflexivity. }
  repeat (split; [reflexivity |]).
  split; [apply SetBroadcast_range; exact Hdown |].
  split; [exact Hup_cast |]. split; [exact Hcast |].
  unfold s', main_flags, println, set_v. cbn [var_a var_b var_c var_v stdout].
  fold v. fold down. fold cast.
  rewrite Hup_down, Hup_cast, Hcast.
  rewrite <- !app_assoc. reflexivity.
Qed.

Lemma main_flags_on_any_value_witness :
  let s := MainState 7 8 9 3 [] in
  let v := var_v s in
  let down := TurnDown W32 v in
  let cast := SetBroadcast down in
  let s' := main_flags W32 s in
  var_a s' = var_a s /\ var_b s' = var_b s /\ var_c s' = var_c s /\
  var_v s' = cast /\
  is_uint W32 cast /\
  IsUp cast = false /\ IsCast cast = true /\
  stdout s' = stdout s ++ [ line_bd v; line_bt v (IsUp v);
                            line_bt down false; line_bt cast false;
                            line_bt cast true ].
Proof.
  apply (main_flags_on_any_value W32 (MainState 7 8 9 3 [])).
  vm_compute. split; congruence.
Defined.

(** Each assignment statement, on a state spelled out. *)
Lemma stmt_and_state a b c v out :
  stmt_and (MainState a b c v out)
  = MainState a b (uint_and a b) v (out ++ [line_c "1" (uint_and a b)]).
Proof. reflexivity. Qed.

Lemma stmt_or_state a b c v out :
  stmt_or (MainState a b c v out)
  = MainState a b (uint_or a b) v (out ++ [line_c "2" (uint_or a b)]).
Proof. reflexivity. Qed.

Lemma stmt_xor_state a b c v out :
  stmt_xor (MainState a b c v out)
  = MainState a b (uint_xor a b) v (out ++ [line_c "3" (uint_xor a b)]).
Proof. reflexivity. Qed.

Lemma stmt_shl_state ws a b c v out :
  stmt_shl ws (MainState a b c v out)
  = MainState a b (uint_shl ws a 2) v (out ++ [line_c "4" (uint_shl ws a 2)]).
Proof. reflexivity. Qed.

Lemma stmt_shr_state a b c v out :
  stmt_shr (MainState a b c v out)
  = MainState a b (uint_shr a 2) v (out ++ [line_c "5" (uint_shr a 2)]).
Proof. reflexivity. Qed.

(** X6: the arithmetic part of [main], started on any [a] and [b]: [c]
    takes the values [a & b], [a | b], [a ^ b], [4 * a] reduced to the
    word, and [a / 4]; each of them is a [uint]; [a], [b] and [v] are left
    alone; exactly five lines are printed, one per value. *)
Theorem main_arith_on_any_values ws (s : main_state) :
  is_uint ws (var_a s) ->
  is_uint ws (var_b s) ->
  let a := var_a s in
  let b := var_b s in
  let cs := [Z.land a b; Z.lor a b; Z.lxor a b; (4 * a) mod modulus ws; a / 4] in
  let s' := main_arith ws s in
  map var_c (arith_trace ws s) = cs /\
  Forall (is_uint ws) cs /\
  last (arith_trace ws s) s = s' /\
  var_a s' = a /\ var_b s' = b /\ var_v s' = var_v s /\
  stdout s' = stdout s ++ map (fun kc => line_c (fst kc) (snd kc))
                              (combine ["1"; "2"; "3"; "4"; "5"]%string cs).
Proof.
  destruct s as [a0 b0 c0 v0 out].
  intros Ha Hb a b cs s'. cbn [var_a var_b] in Ha, Hb, a, b.
  assert (Hshl : uint_shl ws a 2 = (4 * a) mod modulus ws).
  { unfold uint_shl, wrap. rewrite Z.shiftl_mul_pow2 by lia.
    f_equal. change (2 ^ 2) with 4. lia. }
  assert (Hshr : uint_shr a 2 = a / 4).
  { unfold uint_shr. rewrite Z.shiftr_div_pow2 by lia. reflexivity. }
  assert (Hend : main_arith ws (MainState a0 b0 c0 v0 out)
                 = MainState a b (uint_shr a 2) v0
                     (out ++ [line_c "1" (uint_and a b); line_c "2" (uint_or a b);
                              line_c "3" (uint_xor a b);
                              line_c "4" (uint_shl ws a 2);
                              line_c "5" (uint_shr a 2)])).
  { unfold main_arith.
    rewrite stmt_and_state, stmt_or_state, stmt_xor_state, stmt_shl_state,
      stmt_shr_state.
    rewrite <- !app_assoc. reflexivity. }
  assert (Htrace : map var_c (arith_trace ws (MainState a0 b0 c0 v0 out)) = cs).
  { unfold arith_trace.
    rewrite stmt_and_state, stmt_or_state, stmt_xor_state, stmt_shl_state,
      stmt_shr_state.
    unfold cs. rewrite <- Hshl, <- Hshr. reflexivity. }
  split; [exact Htrace |]. split.
  - unfold cs.
    apply Forall_cons; [apply (uint_and_range ws a b Ha) |].
    apply Forall_cons; [apply (uint_or_range ws a b Ha Hb) |].
    apply Forall_cons; [apply (uint_xor_range ws a b Ha Hb) |].
    apply Forall_cons; [apply Z.mod_pos_bound; apply modulus_pos |].
    apply Forall_cons; [| apply Forall_nil].
    rewrite <- Hshr. apply uint_shr_range; [exact Ha | lia].
  - split; [reflexivity |].
    unfold s'. rewrite Hend.
    repeat (split; [reflexivity |]).
    unfold cs. rewrite <- Hshl, <- Hshr. reflexivity.
Qed.

Lemma main_arith_on_any_values_witness :
  let s := MainState 4294967295 6 0 0 [] in
  let a := var_a s in
  let b := var_b s in
  let cs := [Z.land a b; Z.lor a b; Z.lxor a b; (4 * a) mod modulus W32; a / 4] in
  let s' := main_arith W32 s in
  map var_c (arith_trace W32 s) = cs /\
  Forall (is_uint W32) cs /\
  last (arith_trace W32 s) s = s' /\
  var_a s' = a /\ var_b s' = b /\ var_v s' = var_v s /\
  stdout s' = stdout s ++ map (fun kc => line_c (fst kc) (snd kc))
                              (combine ["1"; "2"; "3"; "4"; "5"]%string cs).
Proof.
  apply (main_arith_on_any_values W32 (MainState 4294967295 6 0 0 []));
    vm_compute; split; congruence.
Defined.

End BitFlagsSpec.
(* ================================================================== *)
(** * Properties of the overview script *)
(* ================================================================== *)

Module OverviewSpec.

Import Overview.
Local Open Scope string_scope.
Local Open Scope list_scope.

(** ** Nothing in [test] assigns [dynamodb] *)

Create HintDb frame.

Section Frame.

Variable env : environment.

Lemma keeps_ret A (a : A) : keeps_child (ret a).
Proof. intros w r w' H. inversion H. reflexivity. Qed.

Lemma keeps_throw A e : keeps_child (@throw A e).
Proof. intros w r w' H. inversion H. reflexivity. Qed.

Lemma keeps_out_of_fuel A : keeps_child (@out_of_fuel A).
Proof. intros w r w' H. inversion H. reflexivity. Qed.

Lemma keeps_bind A B (m : js A) (k : A -> js B) :
  keeps_child m -> (forall a, keeps_child (k a)) -> keeps_child (bind m k).
Proof.
  intros Hm Hk w r w' H. unfold bind in H.
  destruct (m w) as [[a | e |] w1] eqn:E; specialize (Hm _ _ _ E).
  - rewrite (Hk a _ _ _ H). exact Hm.
  - inversion H; subst. exact Hm.
  - inversion H; subst. exact Hm.
Qed.

Lemma keeps_call f args : keeps_child (call env f args).
Proof.
  intros w r w' H. unfold call in H.
  destruct (env _); inversion H; reflexivity.
Qed.

Lemma keeps_method recv name args : keeps_child (method env recv name args).
Proof.
  unfold method. destruct (nullish recv); [apply keeps_throw | apply keeps_call].
Qed.

Lemma keeps_get_prop v k : keeps_child (get_prop v k).
Proof.
  unfold get_prop. destruct (nullish v); [apply keeps_throw | apply keeps_ret].
Qed.

Lemma keeps_new_object : keeps_child new_object.
Proof. intros w r w' H. inversion H. reflexivity. Qed.

#[local] Hint Resolve keeps_ret keeps_throw keeps_out_of_fuel keeps_call keeps_method
  keeps_get_prop keeps_new_object : frame.

(** Walks down a chain of binds, closing each head with the lemmas
    collected so far. *)
Ltac frame_steps :=
  repeat (apply keeps_bind; [solve [auto with frame] | intros ?]);
  auto with frame.

Lemma keeps_map_prop k items : keeps_child (map_prop k items).
Proof. induction items as [| x rest IH]; simpl; frame_steps. Qed.

Lemma keeps_array_map_prop xs k : keeps_child (array_map_prop xs k).
Proof.
  pose proof keeps_map_prop.
  destruct xs; simpl; auto with frame. frame_steps.
Qed.

Lemma keeps_batch_while fuel User i count batch :
  keeps_child (batch_while env fuel User i count batch).
Proof.
  revert i count batch.
  induction fuel as [| fuel IH]; intros i count batch; simpl;
    [apply keeps_out_of_fuel |].
  destruct (i <? 200)%Z; [| apply keeps_ret].
  apply keeps_bind; [apply keeps_method | intros _].
  destruct (count + 1 >=? 25)%Z; [| apply IH].
  apply keeps_bind; [apply keeps_call | intros _].
  apply keeps_bind; [apply keeps_new_object | intros b]. apply IH.
Qed.

Lemma keeps_batch_block fuel User : keeps_child (batch_block env fuel User).
Proof.
  unfold batch_block.
  apply keeps_bind; [apply keeps_new_object | intros b].
  apply keeps_batch_while.
Qed.

Lemma keeps_page_loop fuel User start :
  keeps_child (page_loop env fuel User start).
Proof.
  revert start.
  induction fuel as [| fuel IH]; intros start; simpl;
    [apply keeps_out_of_fuel |].
  apply keeps_bind; [apply keeps_method | intros users].
  apply keeps_bind; [apply keeps_get_prop | intros st].
  apply keeps_bind; [apply keeps_get_prop | intros again].
  destruct (truthy again); [apply IH | apply keeps_ret].
Qed.

#[local] Hint Resolve keeps_array_map_prop keeps_batch_block keeps_page_loop : frame.

Lemma keeps_test fuel : keeps_child (test env fuel).
Proof. unfold test. frame_steps. Qed.

End Frame.

(** ** [main]: catch, log, tear down *)

Section Teardown.

Variable env : environment.

(** A successful [start] leaves in [dynamodb] what [spawn] returned. *)
Lemma start_keeps_spawned w w1 :
  start env w = (Normal tt, w1) ->
  env (log w ++ [spawn_call]) = Returns (dynamodb w1) /\
  log w1 = log w ++ [spawn_call; Sleep 1000].
Proof.
  unfold start, bind, call, set_dynamodb, delay, ret, record, spawn_call.
  simpl. destruct (env _) as [v | e]; intros H; inversion H; simpl.
  split; [reflexivity | rewrite <- app_assoc; reflexivity].
Qed.

(** [stop] with a child in [dynamodb] issues the kill, whatever the
    kill then answers. *)
Lemma stop_kills w :
  nullish (dynamodb w) = false ->
  exists r, stop env w = (r, record (kill_call (dynamodb w)) w).
Proof.
  intros Hchild.
  unfold stop, bind, get_dynamodb, get_prop, call, ret, kill_call.
  rewrite Hchild. simpl.
  destruct (env _) as [v | e]; eexists; reflexivity.
Qed.

(** [main] after a successful [start], by the way [test] ends. *)
Lemma main_after_start fuel w w1 :
  start env w = (Normal tt, w1) ->
  main env fuel w =
  match test env fuel w1 with
  | (Normal _, w2) => stop env w2
  | (Thrown e, w2) => stop env (record (Stderr e) w2)
  | (OutOfFuel, w2) => (OutOfFuel, w2)
  end.
Proof.
  intros Hstart. unfold main, bind, try_catch, console_error.
  rewrite Hstart.
  destruct (test env fuel w1) as [[[] | e |] w2]; reflexivity.
Qed.

(** C4: once [start] has spawned the emulator, whichever way [test]
    ends, [main] goes on to [stop], which kills the spawned process: if
    [test] throws [e], nothing more of [test] runs, [e] is written to
    standard error, and the kill follows; if [test] returns, the kill
    follows directly. *)
Theorem main_catches_logs_and_stops fuel w w1 :
  start env w = (Normal tt, w1) ->
  nullish (dynamodb w1) = false ->
  env (log w ++ [spawn_call]) = Returns (dynamodb w1) /\
  match test env fuel w1 with
  | (Normal _, w2) =>
    exists r w3, main env fuel w = (r, w3) /\
                 log w3 = log w2 ++ [kill_call (dynamodb w1)]
  | (Thrown e, w2) =>
    exists r w3, main env fuel w = (r, w3) /\
                 log w3 = log w2 ++ [Stderr e; kill_call (dynamodb w1)]
  | (OutOfFuel, w2) => main env fuel w = (OutOfFuel, w2)
  end.
Proof.
  intros Hstart Hchild.
  split; [apply (start_keeps_spawned w w1 Hstart) |].
  rewrite (main_after_start fuel w w1 Hstart).
  destruct (test env fuel w1) as [[[] | e |] w2] eqn:Htest;
    [| | reflexivity];
    pose proof (keeps_test env fuel _ _ _ Htest) as Hsame.
  - destruct (stop_kills w2) as [r Hr]; [rewrite Hsame; exact Hchild |].
    exists r. eexists. split; [exact Hr |].
    rewrite Hsame. reflexivity.
  - destruct (stop_kills (record (Stderr e) w2)) as [r Hr];
      [simpl; rewrite Hsame; exact Hchild |].
    exists r. eexists. split; [exact Hr |].
    simpl. rewrite Hsame, <- app_assoc. reflexivity.
Qed.

End Teardown.

Lemma main_catches_logs_and_stops_witness :
  let w1 := World (VObj [("id", VStr "01HZX"); ("pid", VNum 4242)]) 0
                  [spawn_call; Sleep 1000] in
  (calm_env (log initial_world ++ [spawn_call]) = Returns (dynamodb w1) /\
   match test calm_env 201 w1 with
   | (Normal _, w2) =>
     exists r w3, main calm_env 201 initial_world = (r, w3) /\
                  log w3 = log w2 ++ [kill_call (dynamodb w1)]
   | (Thrown e, w2) =>
     exists r w3, main calm_env 201 initial_world = (r, w3) /\
                  log w3 = log w2 ++ [Stderr e; kill_call (dynamodb w1)]
   | (OutOfFuel, w2) => main calm_env 201 initial_world = (OutOfFuel, w2)
   end) /\
  (refusing_env (log initial_world ++ [spawn_call]) = Returns (dynamodb w1) /\
   match test refusing_env 201 w1 with
   | (Normal _, w2) =>
     exists r w3, main refusing_env 201 initial_world = (r, w3) /\
                  log w3 = log w2 ++ [kill_call (dynamodb w1)]
   | (Thrown e, w2) =>
     exists r w3, main refusing_env 201 initial_world = (r, w3) /\
                  log w3 = log w2 ++ [Stderr e; kill_call (dynamodb w1)]
   | (OutOfFuel, w2) => main refusing_env 201 initial_world = (OutOfFuel, w2)
   end).
Proof.
  split.
  - apply (main_catches_logs_and_stops calm_env 201 initial_world); reflexivity.
  - apply (main_catches_logs_and_stops refusing_env 201 initial_world); reflexivity.
Defined.

(** The two runs above end differently: in the calm environment [test]
    returns, in the refusing one it throws at the first batch write. *)
Lemma sample_runs_differ :
  fst (test calm_env 201 (snd (start calm_env initial_world))) = Normal tt /\
  fst (test refusing_env 201 (snd (start refusing_env initial_world)))
  = Thrown (VStr "ProvisionedThroughputExceededException").
Proof. split; vm_compute; reflexivity. Qed.

(** ** Fuel only bounds the loops

    A run that ends with some fuel ends the same way with more. *)

Section Fuel.

Variable env : environment.

Lemma settles_refl A (m : js A) : settles m m.
Proof. intros w r w' H _. exact H. Qed.

Lemma settles_bind A B (m m' : js A) (k k' : A -> js B) :
  settles m m' -> (forall a, settles (k a) (k' a)) ->
  settles (bind m k) (bind m' k').
Proof.
  intros Hm Hk w r w' H Hr. unfold bind in *.
  destruct (m w) as [[a | e |] w1] eqn:E.
  - rewrite (Hm _ _ _ E) by discriminate. apply Hk; assumption.
  - rewrite (Hm _ _ _ E) by discriminate. exact H.
  - inversion H; subst. contradiction.
Qed.

Lemma settles_try_catch A (m m' : js A) (h : value -> js A) :
  settles m m' -> (forall e, settles (h e) (h e)) ->
  settles (try_catch m h) (try_catch m' h).
Proof.
  intros Hm _ w r w' H Hr. unfold try_catch in *.
  destruct (m w) as [[a | e |] w1] eqn:E.
  - rewrite (Hm _ _ _ E) by discriminate. exact H.
  - rewrite (Hm _ _ _ E) by discriminate. exact H.
  - inversion H; subst. contradiction.
Qed.

Lemma settles_out_of_fuel A (m : js A) : settles out_of_fuel m.
Proof. intros w r w' H Hr. inversion H; subst. contradiction. Qed.

Lemma batch_while_settles fuel : forall fuel' User i count batch,
  fuel <= fuel' ->
  settles (batch_while env fuel User i count batch)
          (batch_while env fuel' User i count batch).
Proof.
  induction fuel as [| fuel IH]; intros fuel' User i count batch Hle.
  - apply settles_out_of_fuel.
  - destruct fuel' as [| fuel']; [lia |]. cbn [batch_while].
    destruct (i <? 200)%Z; [| apply settles_refl].
    apply settles_bind; [apply settles_refl | intros _].
    destruct (count + 1 >=? 25)%Z; [| apply IH; lia].
    apply settles_bind; [apply settles_refl | intros _].
    apply settles_bind; [apply settles_refl | intros b].
    apply IH. lia.
Qed.

Lemma batch_block_settles fuel fuel' User :
  fuel <= fuel' ->
  settles (batch_block env fuel User) (batch_block env fuel' User).
Proof.
  intros Hle. unfold batch_block.
  apply settles_bind; [apply settles_refl | intros b].
  apply batch_while_settles. exact Hle.
Qed.

Lemma page_loop_settles fuel : forall fuel' User start,
  fuel <= fuel' ->
  settles (page_loop env fuel User start) (page_loop env fuel' User start).
Proof.
  induction fuel as [| fuel IH]; intros fuel' User start Hle.
  - apply settles_out_of_fuel.
  - destruct fuel' as [| fuel']; [lia |]. cbn [page_loop].
    apply settles_bind; [apply settles_refl | intros users].
    apply settles_bind; [apply settles_refl | intros st].
    apply settles_bind; [apply settles_refl | intros again].
    destruct (truthy again); [apply IH; lia | apply settles_refl].
Qed.

Lemma test_settles fuel fuel' :
  fuel <= fuel' -> settles (test env fuel) (test env fuel').
Proof.
  intros Hle. unfold test.
  repeat (apply settles_bind;
          [ first [ apply settles_refl
                  | apply batch_block_settles; exact Hle
                  | apply page_loop_settles; exact Hle ]
          | intros ? ]).
  apply settles_refl.
Qed.

(** [main] ends the same way for every fuel that lets it end. *)
Lemma main_settles fuel fuel' :
  fuel <= fuel' -> settles (main env fuel) (main env fuel').
Proof.
  intros Hle. unfold main.
  apply settles_bind; [apply settles_refl | intros _].
  apply settles_bind; [| intros _; apply settles_refl].
  apply settles_try_catch; [apply test_settles; exact Hle |].
  intros e. apply settles_refl.
Qed.

(** The batch loop never wants for fuel above 200, whatever the calls
    answer. *)
Lemma batch_while_has_fuel fuel : forall User i count batch w,
  0 < fuel ->
  (200 - i < Z.of_nat fuel)%Z ->
  fst (batch_while env fuel User i count batch w) <> OutOfFuel.
Proof.
  induction fuel as [| fuel IH]; intros User i count batch w Hpos Hfuel;
    [lia |].
  cbn [batch_while].
  destruct (Z.ltb_spec i 200) as [Hlt | Hge]; [| simpl; discriminate].
  unfold bind at 1.
  destruct (method env User "create" _ w) as [[v | e |] w1] eqn:E;
    [| simpl; discriminate |].
  - destruct (count + 1 >=? 25)%Z; [| apply IH; lia].
    unfold bind.
    destruct (call env (Global "table.batchWrite") [batch] w1)
      as [[v' | e' |] w2] eqn:E'.
    + simpl. apply IH; lia.
    + simpl. discriminate.
    + unfold call in E'. destruct (env _); discriminate.
  - unfold method in E. destruct (nullish User); [discriminate |].
    unfold call in E. destruct (env _); discriminate.
Qed.

End Fuel.

(** ** The batch loop *)

Lemma creations_snoc User batch i n :
  creations User batch i (S n)
  = creations User batch i n ++ [create_call User (i + Z.of_nat n + 1) batch].
Proof.
  revert i. induction n as [| n IH]; intros i.
  - simpl. rewrite Z.add_0_r. reflexivity.
  - change (creations User batch i (S (S n)))
      with (create_call User (i + 1) batch :: creations User batch (i + 1) (S n)).
    rewrite IH. simpl.
    replace (i + 1 + Z.of_nat n + 1)%Z with (i + Z.pos (Pos.of_succ_nat n) + 1)%Z
      by lia.
    reflexivity.
Qed.

Section Batch.

Variable env : environment.
Hypothesis Hcalm : never_raises env.

Variable User : value.
Hypothesis HUser : nullish User = false.

Lemma call_returns f args w :
  exists v, call env f args w = (Normal v, record (Call f args) w).
Proof.
  unfold call. destruct (Hcalm (log (record (Call f args) w))) as [v Hv].
  rewrite Hv. exists v. reflexivity.
Qed.

(** One turn of the loop while [i < 200]. *)
Lemma batch_while_turn fuel i count batch w :
  (i < 200)%Z ->
  batch_while env (S fuel) User i count batch w =
  let w1 := record (create_call User (i + 1) batch) w in
  if (count + 1 >=? 25)%Z then
    batch_while env fuel User (i + 1) 0 (VRef (next_loc w))
      (World (dynamodb w) (S (next_loc w)) (log w1 ++ [write_call batch]))
  else
    batch_while env fuel User (i + 1) (count + 1) batch w1.
Proof.
  intros Hi. cbn [batch_while].
  replace (i <? 200)%Z with true by (symmetry; apply Z.ltb_lt; exact Hi).
  unfold bind at 1. unfold method. rewrite HUser.
  destruct (call_returns (Method User "create")
              [VObj [("name", VStr ("user" ++ dec_string (i + 1)));
                     ("email", VStr ("user" ++ dec_string (i + 1) ++ "@acme.com"))];
               VObj [("batch", batch)]] w) as [v Hv].
  rewrite Hv. fold (create_call User (i + 1) batch).
  destruct (count + 1 >=? 25)%Z; [| reflexivity].
  unfold bind.
  destruct (call_returns (Global "table.batchWrite") [batch]
              (record (create_call User (i + 1) batch) w)) as [v' Hv'].
  rewrite Hv'. reflexivity.
Qed.

(** The turn on which the condition fails: [i++] still happens. *)
Lemma batch_while_exit fuel i count batch w :
  (200 <= i)%Z ->
  batch_while env (S fuel) User i count batch w
  = (Normal ((i + 1)%Z, count, batch), w).
Proof.
  intros Hi. cbn [batch_while].
  replace (i <? 200)%Z with false by (symmetry; apply Z.ltb_ge; exact Hi).
  reflexivity.
Qed.

(** [n] turns that do not fill the batch. *)
Lemma batch_while_fill n : forall fuel i count batch w,
  (count + Z.of_nat n < 25)%Z ->
  (i + Z.of_nat n <= 200)%Z ->
  batch_while env (n + fuel) User i count batch w =
  batch_while env fuel User (i + Z.of_nat n) (count + Z.of_nat n) batch
    (World (dynamodb w) (next_loc w) (log w ++ creations User batch i n)).
Proof.
  induction n as [| n IH]; intros fuel i count batch w Hcount Hi.
  - simpl. rewrite !Z.add_0_r, app_nil_r. destruct w; reflexivity.
  - change (S n + fuel) with (S (n + fuel)).
    rewrite batch_while_turn by lia.
    replace (count + 1 >=? 25)%Z with false by (symmetry; lia).
    cbv zeta. rewrite IH by lia.
    replace (i + 1 + Z.of_nat n)%Z with (i + Z.of_nat (S n))%Z by lia.
    replace (count + 1 + Z.of_nat n)%Z with (count + Z.of_nat (S n))%Z by lia.
    unfold record. simpl. rewrite <- app_assoc. reflexivity.
Qed.

(** One full round: 25 creations, the write, a new batch object. *)
Lemma batch_while_round fuel i loc w :
  (i + 25 <= 200)%Z ->
  batch_while env (25 + fuel) User i 0 (VRef loc) w =
  batch_while env fuel User (i + 25) 0 (VRef (next_loc w))
    (World (dynamodb w) (S (next_loc w))
           (log w ++ creations User (VRef loc) i 25 ++ [write_call (VRef loc)])).
Proof.
  intros Hi. change (25 + fuel) with (24 + S fuel).
  rewrite batch_while_fill by (simpl; lia).
  rewrite batch_while_turn by (simpl; lia).
  change (0 + Z.of_nat 24 + 1 >=? 25)%Z with true. cbv zeta iota.
  replace (i + Z.of_nat 24 + 1)%Z with (i + 25)%Z by (simpl; lia).
  rewrite (creations_snoc User (VRef loc) i 24).
  replace (i + Z.of_nat 24 + 1)%Z with (i + 25)%Z by (simpl; lia).
  unfold record. cbn [dynamodb next_loc log].
  rewrite <- !app_assoc. reflexivity.
Qed.

(** [k] full rounds in a row, the batch in hand being the object
    allocated last. *)
Lemma batch_while_rounds k : forall fuel i loc w,
  next_loc w = S loc ->
  (i + 25 * Z.of_nat k <= 200)%Z ->
  batch_while env (25 * k + fuel) User i 0 (VRef loc) w =
  batch_while env fuel User (i + 25 * Z.of_nat k) 0 (VRef (k + loc))
    (World (dynamodb w) (S (k + loc)) (log w ++ rounds User loc i k)).
Proof.
  induction k as [| k IH]; intros fuel i loc w Hnext Hi.
  - simpl. rewrite Z.add_0_r, app_nil_r, <- Hnext. destruct w; reflexivity.
  - replace (25 * S k + fuel) with (25 + (25 * k + fuel)) by lia.
    rewrite batch_while_round by lia.
    rewrite Hnext. rewrite (IH fuel (i + 25)%Z (S loc)) by (reflexivity || lia).
    cbn [dynamodb next_loc log rounds].
    replace (i + 25 + 25 * Z.of_nat k)%Z with (i + 25 * Z.of_nat (S k))%Z by lia.
    replace (k + S loc) with (S k + loc) by lia.
    rewrite <- !app_assoc. reflexivity.
Qed.

(** The whole block, for any fuel above 200. *)
Lemma batch_block_runs fuel w :
  200 < fuel ->
  batch_block env fuel User w =
  (Normal (201%Z, 0%Z, VRef (8 + next_loc w)),
   World (dynamodb w) (9 + next_loc w)
         (log w ++ rounds User (next_loc w) 0 8)).
Proof.
  intros Hfuel.
  destruct (Nat.le_exists_sub 201 fuel Hfuel) as [extra [Hextra _]].
  unfold batch_block, bind, new_object.
  replace fuel with (25 * 8 + S extra) by lia.
  rewrite batch_while_rounds by (reflexivity || (simpl; lia)).
  rewrite batch_while_exit by (simpl; lia).
  reflexivity.
Qed.

End Batch.

Lemma rounds_queued User loc :
  queued (rounds User loc 0 8) = queued_by_round loc.
Proof. vm_compute. reflexivity. Qed.

Lemma rounds_submitted User loc :
  submitted (rounds User loc 0 8) = map (fun k => VRef (k + loc)) (seq 0 8).
Proof. vm_compute. reflexivity. Qed.

Lemma queued_names loc :
  map fst (queued_by_round loc)
  = map (fun j => VStr ("user" ++ dec_string (Z.of_nat j))) (seq 1 200).
Proof. vm_compute. reflexivity. Qed.

Lemma queued_batches loc b :
  In b (map snd (queued_by_round loc)) -> exists k, k < 8 /\ b = VRef (k + loc).
Proof.
  unfold queued_by_round. rewrite in_map_iff.
  intros [[name b'] [Hb Hin]]. simpl in Hb. subst b'.
  apply in_flat_map in Hin. destruct Hin as [k [Hk Hin]].
  apply in_map_iff in Hin. destruct Hin as [j [Hj _]].
  apply in_seq in Hk. exists k. split; [lia | congruence].
Qed.

Lemma submitted_distinct loc :
  NoDup (map (fun k => VRef (k + loc)) (seq 0 8)).
Proof.
  apply Injective_map_NoDup; [| apply seq_NoDup].
  intros k k' H. inversion H. lia.
Qed.

Lemma never_raises_calm : never_raises calm_env.
Proof.
  intros history. unfold calm_env.
  destruct (String.eqb (last_callee history) "find"); eexists; reflexivity.
Qed.

(** C10: when no call fails, the batch loop creates exactly 200 users,
    named user1 to user200; it calls [table.batchWrite] exactly 8 times,
    each time right after 25 creations queued on the batch it submits;
    the batch object in hand when the loop exits is a new one on which
    nothing was queued; so every created user was queued on exactly one
    submitted batch.  Any fuel above 200 lets the loop run to its end,
    with [i = 201] and [count = 0]. *)
Theorem batch_loop_writes_every_user env fuel User w :
  never_raises env ->
  nullish User = false ->
  200 < fuel ->
  let evs := rounds User (next_loc w) 0 8 in
  let pending := VRef (8 + next_loc w) in
  exists w',
    batch_block env fuel User w = (Normal (201%Z, 0%Z, pending), w') /\
    log w' = log w ++ evs /\
    map fst (queued evs)
    = map (fun j => VStr ("user" ++ dec_string (Z.of_nat j))) (seq 1 200) /\
    List.length (queued evs) = 200 /\
    List.length (submitted evs) = 8 /\
    queued evs = queued_by_round (next_loc w) /\
    submitted evs = map (fun k => VRef (k + next_loc w)) (seq 0 8) /\
    NoDup (submitted evs) /\
    incl (map snd (queued evs)) (submitted evs) /\
    ~ In pending (map snd (queued evs)).
Proof.
  intros Hcalm HUser Hfuel evs pending.
  eexists. split; [apply (batch_block_runs env Hcalm User HUser fuel w Hfuel) |].
  subst evs pending. cbn [log].
  rewrite rounds_queued, rounds_submitted.
  split; [reflexivity |].
  split; [apply queued_names |].
  split; [reflexivity |].
  split; [reflexivity |].
  split; [reflexivity |].
  split; [reflexivity |].
  split; [apply submitted_distinct |].
  split.
  - intros b Hb. apply queued_batches in Hb. destruct Hb as [k [Hk ->]].
    apply in_map_iff. exists k. split; [reflexivity |].
    apply in_seq. lia.
  - intros Hin. apply queued_batches in Hin. destruct Hin as [k [Hk Heq]].
    inversion Heq. lia.
Qed.

Lemma batch_loop_writes_every_user_witness :
  let evs := rounds (VObj []) 0 0 8 in
  exists w',
    batch_block calm_env 201 (VObj []) initial_world
    = (Normal (201%Z, 0%Z, VRef 8), w') /\
    log w' = log initial_world ++ evs /\
    map fst (queued evs)
    = map (fun j => VStr ("user" ++ dec_string (Z.of_nat j))) (seq 1 200) /\
    List.length (queued evs) = 200 /\
    List.length (submitted evs) = 8 /\
    queued evs = queued_by_round 0 /\
    submitted evs = map (fun k => VRef (k + 0)) (seq 0 8) /\
    NoDup (submitted evs) /\
    incl (map snd (queued evs)) (submitted evs) /\
    ~ In (VRef 8) (map snd (queued evs)).
Proof.
  apply (batch_loop_writes_every_user calm_env 201 (VObj []) initial_world).
  - exact never_raises_calm.
  - reflexivity.
  - lia.
Defined.

(** With a failing write the loop stops at the first batch: 25 users
    queued, one write attempted, the error passed on. *)
Lemma batch_loop_aborts_on_failure :
  let '(r, w) := batch_block refusing_env 201 (VObj []) initial_world in
  r = Thrown (VStr "ProvisionedThroughputExceededException") /\
  List.length (queued (log w)) = 25 /\
  submitted (log w) = [VRef 0].
Proof. vm_compute. repeat split; reflexivity. Qed.

(** ** The schema *)

(** C6: in the User model, [email] is required and encrypted ([crypt]);
    it is uniquely indexed, being the one field the sort key of the primary
    index is computed from (under the account's hash key); [role] is
    enumerated over admin and user, [status] over active and inactive. *)
Theorem User_email_role_status_declared :
  attribute "User" "email" "required" = VBool true /\
  attribute "User" "email" "crypt" = VBool true /\
  index_key "primary" = (VStr "pk", VStr "sk") /\
  attribute "User" "sk" "value" = VStr "user#${email}" /\
  key_fields "User" "primary" = (["accountId"], ["email"]) /\
  attribute "User" "role" "enum" = arr [VStr "admin"; VStr "user"] /\
  attribute "User" "status" "enum" = arr [VStr "active"; VStr "inactive"].
Proof. repeat split; reflexivity. Qed.

(** The uniqueness of a User's email is that of the primary key: the field
    does not carry the [unique] attribute that [Account.name] has. *)
Lemma User_email_unique_attribute_absent :
  attribute "User" "email" "unique" = VUndefined /\
  flag_on "Account" "name" "unique" = true.
Proof. split; reflexivity. Qed.

(** C7: in the Account model, [id] is generated as a ULID, [name] is
    required and unique, and [balance] is a number with default 0. *)
Theorem Account_id_name_balance_declared :
  attribute "Account" "id" "generate" = VStr "ulid" /\
  attribute "Account" "name" "required" = VBool true /\
  attribute "Account" "name" "unique" = VBool true /\
  attribute "Account" "balance" "type" = TNumber /\
  attribute "Account" "balance" "default" = VNum 0.
Proof. repeat split; reflexivity. Qed.

(** ** What every run of [test] respects *)

Create HintDb orderly.

Section Orderly.

Variable env : environment.

Lemma orderly_ret A (a : A) : orderly env (ret a).
Proof.
  intros w r w' H. inversion H; subst. split; [| split].
  - exists []. symmetry. apply app_nil_r.
  - apply le_n.
  - intros e He. discriminate.
Qed.

Lemma orderly_type_error A : orderly env (@throw A type_error).
Proof.
  intros w r w' H. inversion H; subst. split; [| split].
  - exists []. symmetry. apply app_nil_r.
  - apply le_n.
  - intros e He. inversion He. left. reflexivity.
Qed.

Lemma orderly_out_of_fuel A : orderly env (@out_of_fuel A).
Proof.
  intros w r w' H. inversion H; subst. split; [| split].
  - exists []. symmetry. apply app_nil_r.
  - apply le_n.
  - intros e He. discriminate.
Qed.

Lemma orderly_bind A B (m : js A) (k : A -> js B) :
  orderly env m -> (forall a, orderly env (k a)) -> orderly env (bind m k).
Proof.
  intros Hm Hk w r w' H. unfold bind in H.
  destruct (m w) as [[a | e |] w1] eqn:E;
    destruct (Hm _ _ _ E) as [[evs1 Hlog1] [Hloc1 Hthrow1]].
  - destruct (Hk a _ _ _ H) as [[evs2 Hlog2] [Hloc2 Hthrow2]].
    split; [| split].
    + exists (evs1 ++ evs2). rewrite Hlog2, Hlog1. symmetry. apply app_assoc.
    + lia.
    + exact Hthrow2.
  - inversion H; subst. split; [| split].
    + exists evs1. exact Hlog1.
    + exact Hloc1.
    + intros e0 He. inversion He; subst. apply Hthrow1. reflexivity.
  - inversion H; subst. split; [| split].
    + exists evs1. exact Hlog1.
    + exact Hloc1.
    + intros e He. discriminate.
Qed.

Lemma orderly_call f args : orderly env (call env f args).
Proof.
  intros w r w' H. unfold call in H.
  destruct (env (log (record (Call f args) w))) as [v | e] eqn:E;
    inversion H; subst; (split; [| split]).
  - exists [Call f args]. reflexivity.
  - apply le_n.
  - intros e He. discriminate.
  - exists [Call f args]. reflexivity.
  - apply le_n.
  - intros e' He. inversion He; subst. right.
    exists (log w), f, args. split; [reflexivity | exact E].
Qed.

Lemma orderly_method recv name args : orderly env (method env recv name args).
Proof.
  unfold method. destruct (nullish recv);
    [apply orderly_type_error | apply orderly_call].
Qed.

Lemma orderly_get_prop v k : orderly env (get_prop v k).
Proof.
  unfold get_prop. destruct (nullish v);
    [apply orderly_type_error | apply orderly_ret].
Qed.

Lemma orderly_new_object : orderly env new_object.
Proof.
  intros w r w' H. inversion H; subst. split; [| split].
  - exists []. symmetry. apply app_nil_r.
  - apply Nat.le_succ_diag_r.
  - intros e He. discriminate.
Qed.

#[local] Hint Resolve orderly_ret orderly_type_error orderly_out_of_fuel
  orderly_call orderly_method orderly_get_prop orderly_new_object : orderly.

(** Walks down a chain of binds. *)
Ltac orderly_steps :=
  repeat (apply orderly_bind; [solve [auto with orderly] | intros ?]);
  auto with orderly.

Lemma orderly_map_prop k items : orderly env (map_prop k items).
Proof. induction items as [| x rest IH]; simpl; orderly_steps. Qed.

Lemma orderly_array_map_prop xs k : orderly env (array_map_prop xs k).
Proof.
  pose proof orderly_map_prop.
  destruct xs; simpl; auto with orderly. orderly_steps.
Qed.

Lemma orderly_batch_while fuel : forall User i count batch,
  orderly env (batch_while env fuel User i count batch).
Proof.
  induction fuel as [| fuel IH]; intros User i count batch; cbn [batch_while];
    [apply orderly_out_of_fuel |].
  destruct (i <? 200)%Z; [| apply orderly_ret].
  apply orderly_bind; [apply orderly_method | intros _].
  destruct (count + 1 >=? 25)%Z; [| apply IH].
  apply orderly_bind; [apply orderly_call | intros _].
  apply orderly_bind; [apply orderly_new_object | intros b]. apply IH.
Qed.

Lemma orderly_batch_block fuel User : orderly env (batch_block env fuel User).
Proof.
  unfold batch_block.
  apply orderly_bind; [apply orderly_new_object | intros b].
  apply orderly_batch_while.
Qed.

Lemma orderly_page_loop fuel : forall User start,
  orderly env (page_loop env fuel User start).
Proof.
  induction fuel as [| fuel IH]; intros User start; cbn [page_loop];
    [apply orderly_out_of_fuel |].
  apply orderly_bind; [apply orderly_method | intros users].
  apply orderly_bind; [apply orderly_get_prop | intros st].
  apply orderly_bind; [apply orderly_get_prop | intros again].
  destruct (truthy again); [apply IH | apply orderly_ret].
Qed.

#[local] Hint Resolve orderly_array_map_prop orderly_batch_block
  orderly_page_loop : orderly.

Lemma orderly_test fuel : orderly env (test env fuel).
Proof. unfold test. orderly_steps. Qed.

(** X7: whatever the library answers, a run of [test] never assigns
    [dynamodb], only ever appends to the log, and never reuses an object
    identity. *)
Theorem test_keeps_child_and_history fuel w r w' :
  test env fuel w = (r, w') ->
  dynamodb w' = dynamodb w /\
  (exists evs, log w' = log w ++ evs) /\
  next_loc w <= next_loc w'.
Proof.
  intros H. split; [apply (keeps_test env fuel _ _ _ H) |].
  destruct (orderly_test fuel _ _ _ H) as [Hlog [Hloc _]].
  split; assumption.
Qed.

(** X8: [test] stops at the first failure and passes it on unchanged: if
    it throws [e], then either [e] is what the environment raised on the
    call logged last, or [e] is the runtime's error for a property access
    on [null] or [undefined]. *)
Theorem test_throws_first_failure fuel w e w' :
  test env fuel w = (Thrown e, w') ->
  e = type_error \/
  exists hist f args,
    log w' = hist ++ [Call f args] /\ env (log w') = Raises e.
Proof.
  intros H. destruct (orderly_test fuel _ _ _ H) as [_ [_ Hthrow]].
  apply Hthrow. reflexivity.
Qed.

(** [test] starts with [table.createTable()], however it goes on. *)
Lemma test_begins fuel w r w' :
  test env fuel w = (r, w') ->
  exists evs, log w' = log w ++ create_table_call :: evs.
Proof.
  unfold test. intros H. unfold bind at 1 in H. unfold call at 1 in H.
  destruct (env (log (record (Call (Global "table.createTable") []) w)))
    as [v | e].
  - match type of H with
    | ?k _ = _ => assert (Hk : orderly env k) by orderly_steps
    end.
    destruct (Hk _ _ _ H) as [[evs Hlog] _].
    exists evs. rewrite Hlog. simpl. rewrite <- app_assoc. reflexivity.
  - inversion H; subst. exists []. reflexivity.
Qed.

Lemma ends_with_bind ev A B (m : js A) (k : A -> js B) :
  (forall a, ends_with ev (k a)) -> ends_with ev (bind m k).
Proof.
  intros Hk w b w' H. unfold bind in H.
  destruct (m w) as [[a | e |] w1]; [| discriminate | discriminate].
  apply (Hk a _ _ _ H).
Qed.

Lemma ends_with_last_call f args :
  ends_with (Call f args) (call env f args ;;; ret tt).
Proof.
  intros w a w' H. unfold bind, call, ret in H.
  destruct (env (log (record (Call f args) w))); inversion H; subst.
  exists (log w). reflexivity.
Qed.

(** [test], when it returns, has just called [table.deleteTable]. *)
Lemma test_ends fuel : ends_with delete_table_call (test env fuel).
Proof.
  unfold test.
  repeat first [ apply ends_with_last_call
               | apply ends_with_bind; intros ? ].
Qed.

(** X9: a run of [test] that returns is bracketed by the creation and the
    deletion of the table: its first call is [table.createTable()] and its
    last is [table.deleteTable('DeleteTableForever')]. *)
Theorem test_creates_first_deletes_last fuel w w' :
  test env fuel w = (Normal tt, w') ->
  exists mid,
    log w' = log w ++ create_table_call :: mid ++ [delete_table_call].
Proof.
  intros H.
  destruct (test_begins fuel _ _ _ H) as [evs Hbegin].
  destruct (test_ends fuel _ _ _ H) as [hist Hend].
  destruct (exists_last (l := create_table_call :: evs)) as [body [final Hsplit]];
    [discriminate |].
  rewrite Hsplit, app_assoc in Hbegin. rewrite Hbegin in Hend.
  apply app_inj_tail in Hend. destruct Hend as [_ ->].
  destruct body as [| first mid].
  - discriminate.
  - inversion Hsplit; subst. exists mid. rewrite Hbegin, <- app_assoc.
    reflexivity.
Qed.

End Orderly.

Lemma test_throws_first_failure_witness :
  let w1 := snd (start refusing_env initial_world) in
  let e := VStr "ProvisionedThroughputExceededException" in
  let w' := snd (test refusing_env 201 w1) in
  e = type_error \/
  exists hist f args,
    log w' = hist ++ [Call f args] /\ refusing_env (log w') = Raises e.
Proof.
  apply (test_throws_first_failure refusing_env 201
           (snd (start refusing_env initial_world))).
  vm_compute. reflexivity.
Defined.

Lemma test_creates_first_deletes_last_witness :
  let w1 := snd (start calm_env initial_world) in
  let w' := snd (test calm_env 201 w1) in
  exists mid,
    log w' = log w1 ++ create_table_call :: mid ++ [delete_table_call].
Proof.
  apply (test_creates_first_deletes_last calm_env 201
           (snd (start calm_env initial_world))).
  vm_compute. reflexivity.
Defined.

Lemma test_keeps_child_and_history_witness :
  let w1 := snd (start refusing_env initial_world) in
  let w' := snd (test refusing_env 201 w1) in
  dynamodb w' = dynamodb w1 /\
  (exists evs, log w' = log w1 ++ evs) /\
  next_loc w1 <= next_loc w'.
Proof.
  apply (test_keeps_child_and_history refusing_env 201
           (snd (start refusing_env initial_world))
           (fst (test refusing_env 201 (snd (start refusing_env initial_world))))).
  vm_compute. reflexivity.
Defined.

(** ** The paging loop *)

Section Paging.

Variable env : environment.

(** One turn of the loop once [find] has answered. *)
Lemma page_loop_turn fuel User start w page :
  nullish User = false ->
  env (log w ++ [page_call User start]) = Returns page ->
  nullish page = false ->
  page_loop env (S fuel) User start w =
  if truthy (prop_of page "start")
  then page_loop env fuel User (prop_of page "start")
                 (record (page_call User start) w)
  else (Normal page, record (page_call User start) w).
Proof.
  intros HUser Hpage Hobj. cbn [page_loop].
  unfold bind at 1. unfold method. rewrite HUser.
  unfold call. fold (page_call User start).
  change (log (record (page_call User start) w))
    with (log w ++ [page_call User start]).
  rewrite Hpage. unfold bind, get_prop. rewrite Hobj. unfold ret.
  destruct (truthy (prop_of page "start")); reflexivity.
Qed.

(** X10: when the paging loop returns a page, that page is what the last
    [find] answered, it is not [null] or [undefined], and it carries no
    [start]: the loop never stops on a page that names a next one. *)
Theorem page_loop_returns_last_page fuel : forall User start w page w',
  page_loop env fuel User start w = (Normal page, w') ->
  nullish page = false /\
  truthy (prop_of page "start") = false /\
  env (log w') = Returns page /\
  exists hist cursor, log w' = hist ++ [page_call User cursor].
Proof.
  induction fuel as [| fuel IH]; intros User start w page w' H;
    cbn [page_loop] in H; [discriminate |].
  unfold bind at 1 in H. unfold method in H.
  destruct (nullish User); [discriminate |].
  unfold call in H. fold (page_call User start) in H.
  destruct (env (log (record (page_call User start) w))) as [v | e] eqn:E;
    [| discriminate].
  unfold bind, get_prop in H.
  destruct (nullish v) eqn:Hv; [discriminate |].
  unfold ret in H.
  destruct (truthy (prop_of v "start")) eqn:Hmore.
  - apply (IH _ _ _ _ _ H).
  - inversion H; subst. split; [exact Hv |]. split; [exact Hmore |].
    split; [exact E |]. exists (log w), start. reflexivity.
Qed.

(** X11: the loop reads every page the library has: when the library
    answers [n] pages in a row, each but the last naming a next one, the
    loop makes exactly [n] [find] calls, the first with the cursor it was
    given and each later one with the [start] of the page before, and
    returns the last page.  Any bound of at least [n] pages is enough. *)
Theorem page_loop_reads_every_page pages : forall fuel User start w,
  nullish User = false ->
  pages <> [] ->
  answers_pages env (log w) User start pages ->
  List.length pages <= fuel ->
  page_loop env fuel User start w =
  (Normal (last pages VUndefined),
   World (dynamodb w) (next_loc w) (log w ++ page_calls User start pages)).
Proof.
  induction pages as [| page rest IH]; intros fuel User start w HUser Hne Hans Hfuel;
    [contradiction |].
  destruct Hans as [Hpage [Hobj [Hmore Hrest]]].
  destruct fuel as [| fuel]; [simpl in Hfuel; lia |].
  rewrite (page_loop_turn fuel User start w page HUser Hpage Hobj), Hmore.
  destruct rest as [| page' rest'].
  - reflexivity.
  - cbn [List.length Nat.eqb negb].
    rewrite (IH fuel User (prop_of page "start") (record (page_call User start) w));
      try assumption; try discriminate; [| simpl in *; lia].
    unfold record. cbn [dynamodb next_loc log page_calls].
    rewrite <- app_assoc. reflexivity.
Qed.

(** X12: if the library names a next page every time, the loop never
    ends: for every bound on the number of pages, that many pages are read
    and the loop has not returned. *)
Theorem page_loop_never_ends fuel : forall User start w,
  always_more env ->
  nullish User = false ->
  exists w',
    page_loop env fuel User start w = (OutOfFuel, w') /\
    List.length (log w') = List.length (log w) + fuel.
Proof.
  induction fuel as [| fuel IH]; intros User start w Hmore HUser.
  - exists w. split; [reflexivity | lia].
  - destruct (Hmore (log w ++ [page_call User start])) as [page [Hpage [Hobj Hnext]]].
    rewrite (page_loop_turn fuel User start w page HUser Hpage Hobj), Hnext.
    destruct (IH User (prop_of page "start") (record (page_call User start) w)
                 Hmore HUser) as [w' [Hrun Hlen]].
    exists w'. split; [exact Hrun |].
    rewrite Hlen. unfold record. cbn [log]. rewrite length_app. simpl. lia.
Qed.

End Paging.

Lemma page_loop_returns_last_page_witness :
  let w' := snd (page_loop paged_env 5 (VObj []) VUndefined initial_world) in
  nullish (arr []) = false /\
  truthy (prop_of (arr []) "start") = false /\
  paged_env (log w') = Returns (arr []) /\
  exists hist cursor, log w' = hist ++ [page_call (VObj []) cursor].
Proof.
  apply (page_loop_returns_last_page paged_env 5 (VObj []) VUndefined initial_world).
  vm_compute. reflexivity.
Defined.

Lemma page_loop_reads_every_page_witness :
  page_loop paged_env 3 (VObj []) VUndefined initial_world =
  (Normal (last [VObj [("start", VNum 1)]; VObj [("start", VNum 2)]; arr []]
                VUndefined),
   World (dynamodb initial_world) (next_loc initial_world)
         (log initial_world ++
          page_calls (VObj []) VUndefined
            [VObj [("start", VNum 1)]; VObj [("start", VNum 2)]; arr []])).
Proof.
  apply (page_loop_reads_every_page paged_env
           [VObj [("start", VNum 1)]; VObj [("start", VNum 2)]; arr []]
           3 (VObj []) VUndefined initial_world).
  - reflexivity.
  - discriminate.
  - vm_compute. repeat split; reflexivity.
  - simpl. lia.
Defined.

Lemma always_more_endless : always_more endless_env.
Proof.
  intros history. eexists. split; [reflexivity |]. split; reflexivity.
Qed.

Lemma page_loop_never_ends_witness :
  exists w',
    page_loop endless_env 1000 (VObj []) VUndefined initial_world = (OutOfFuel, w') /\
    List.length (log w') = List.length (log initial_world) + 1000.
Proof.
  apply (page_loop_never_ends endless_env 1000 (VObj []) VUndefined initial_world).
  - exact always_more_endless.
  - reflexivity.
Defined.

(** ** The batch loop when calls may fail *)

Section BatchAnyway.

Variable env : environment.

(** Whatever fails, the calls made are an initial part of the plan; they
    are the whole plan when the loop returns. *)
Lemma batch_while_within_plan fuel : forall User i count batch w r w',
  batch_while env fuel User i count batch w = (r, w') ->
  exists evs rest,
    log w' = log w ++ evs /\
    evs ++ rest = batch_plan fuel User i count batch (next_loc w) /\
    (forall a, r = Normal a -> rest = []).
Proof.
  induction fuel as [| fuel IH]; intros User i count batch w r w' H;
    cbn [batch_while batch_plan] in *.
  - inversion H; subst. exists [], []. rewrite app_nil_r. auto.
  - destruct (i <? 200)%Z.
    2:{ inversion H; subst. exists [], []. rewrite app_nil_r. auto. }
    unfold bind at 1 in H. unfold method in H.
    destruct (nullish User).
    { inversion H; subst. eexists [], _. rewrite app_nil_r.
      split; [reflexivity |]. split; [reflexivity |]. intros a Ha. discriminate. }
    unfold call at 1 in H. fold (create_call User (i + 1) batch) in H.
    destruct (env (log (record (create_call User (i + 1) batch) w))) as [v | e].
    2:{ inversion H; subst. eexists [create_call User (i + 1) batch], _.
        split; [reflexivity |]. split; [reflexivity |]. intros a Ha. discriminate. }
    destruct (count + 1 >=? 25)%Z.
    + unfold bind at 1 in H. unfold call at 1 in H. fold (write_call batch) in H.
      destruct (env (log (record (write_call batch)
                            (record (create_call User (i + 1) batch) w))))
        as [v' | e'].
      2:{ inversion H; subst.
          eexists [create_call User (i + 1) batch; write_call batch], _.
          split; [unfold record; cbn [log]; rewrite <- app_assoc; reflexivity |].
          split; [reflexivity |]. intros a Ha. discriminate. }
      unfold bind, new_object in H. cbn [next_loc dynamodb log record] in H.
      destruct (IH _ _ _ _ _ _ _ H) as [evs [rest [Hlog [Hplan Hdone]]]].
      cbn [next_loc log] in Hlog, Hplan.
      exists (create_call User (i + 1) batch :: write_call batch :: evs), rest.
      split; [rewrite Hlog, <- !app_assoc; reflexivity |].
      split; [simpl; rewrite Hplan; reflexivity | exact Hdone].
    + destruct (IH _ _ _ _ _ _ _ H) as [evs [rest [Hlog [Hplan Hdone]]]].
      unfold record in Hlog, Hplan. cbn [next_loc log] in Hlog, Hplan.
      exists (create_call User (i + 1) batch :: evs), rest.
      split; [rewrite Hlog, <- app_assoc; reflexivity |].
      split; [simpl; rewrite Hplan; reflexivity | exact Hdone].
Qed.

(** With nothing failing, the plan from the start of the loop is the
    eight rounds. *)
Lemma batch_plan_rounds User loc :
  batch_plan 201 User 0 0 (VRef loc) (S loc) = rounds User loc 0 8.
Proof. vm_compute. reflexivity. Qed.

(** The block is the loop entered with a new batch object. *)
Lemma batch_block_enters n User w r w' :
  batch_block env n User w = (r, w') ->
  batch_while env n User 0 0 (VRef (next_loc w))
    (World (dynamodb w) (S (next_loc w)) (log w)) = (r, w').
Proof. intros Hrun. exact Hrun. Qed.

Lemma batch_loop_ends n User w r w' :
  n = 201 ->
  batch_while env n User 0 0 (VRef (next_loc w))
    (World (dynamodb w) (S (next_loc w)) (log w)) = (r, w') ->
  r <> OutOfFuel.
Proof.
  intros Hn Hwhile.
  pose proof (batch_while_has_fuel env n User 0 0 (VRef (next_loc w))
                (World (dynamodb w) (S (next_loc w)) (log w))) as Hhas.
  rewrite Hwhile in Hhas. apply Hhas; lia.
Qed.

Lemma batch_block_more_fuel n fuel User w r w' :
  n = 201 -> 200 < fuel ->
  batch_block env n User w = (r, w') -> r <> OutOfFuel ->
  batch_block env fuel User w = (r, w').
Proof.
  intros Hn Hfuel Hrun Hr.
  apply (batch_block_settles env n fuel User); [lia | exact Hrun | exact Hr].
Qed.

Lemma batch_loop_within_rounds n User w r w' :
  n = 201 ->
  batch_while env n User 0 0 (VRef (next_loc w))
    (World (dynamodb w) (S (next_loc w)) (log w)) = (r, w') ->
  exists evs rest,
    log w' = log w ++ evs /\
    evs ++ rest = rounds User (next_loc w) 0 8 /\
    (forall a, r = Normal a -> rest = []).
Proof.
  intros Hn Hwhile.
  destruct (batch_while_within_plan _ _ _ _ _ _ _ _ Hwhile)
    as [evs [rest [Hlog [Hplan Hdone]]]].
  change (next_loc (World (dynamodb w) (S (next_loc w)) (log w)))
    with (S (next_loc w)) in Hplan.
  change (log (World (dynamodb w) (S (next_loc w)) (log w)))
    with (log w) in Hlog.
  subst n. rewrite batch_plan_rounds in Hplan.
  exists evs, rest. auto.
Qed.

(** X13: whatever the library answers, and for any fuel above 200, the
    batch loop ends (it returns or throws), and the calls it made are an
    initial part of the eight rounds of 25 creations and one write: it
    never creates a 201st user, never writes a batch before 25 users are
    queued on it, never queues on a batch already written.  When it
    returns, it made all of these calls. *)
Theorem batch_loop_stays_within_rounds fuel User w r w' :
  200 < fuel ->
  batch_block env fuel User w = (r, w') ->
  r <> OutOfFuel /\
  exists evs rest,
    log w' = log w ++ evs /\
    evs ++ rest = rounds User (next_loc w) 0 8 /\
    (forall a, r = Normal a -> rest = []).
Proof.
  intros Hfuel H.
  destruct (batch_block env 201 User w) as [r0 w0] eqn:Hrun.
  pose proof (batch_block_enters _ _ _ _ _ Hrun) as Hwhile.
  pose proof (batch_loop_ends _ _ _ _ _ eq_refl Hwhile) as Hr0.
  pose proof (batch_block_more_fuel _ _ _ _ _ _ eq_refl Hfuel Hrun Hr0) as Hsame.
  rewrite Hsame in H. inversion H; subst r0 w0.
  split; [exact Hr0 |].
  exact (batch_loop_within_rounds _ _ _ _ _ eq_refl Hwhile).
Qed.

End BatchAnyway.

Lemma batch_loop_stays_within_rounds_witness :
  let run := batch_block refusing_env 250 (VObj []) initial_world in
  fst run <> OutOfFuel /\
  exists evs rest,
    log (snd run) = log initial_world ++ evs /\
    evs ++ rest = rounds (VObj []) (next_loc initial_world) 0 8 /\
    (forall a, fst run = Normal a -> rest = []).
Proof.
  apply (batch_loop_stays_within_rounds refusing_env 250 (VObj []) initial_world).
  - lia.
  - vm_compute. reflexivity.
Defined.

(** ** [main] when the emulator gives trouble *)

Section Trouble.

Variable env : environment.

(** X14: if the emulator cannot be spawned, [main] throws what [spawn]
    raised and does nothing else: [test] is not run, nothing is written to
    standard error, and no kill is attempted. *)
Theorem main_stops_at_failed_spawn fuel w e :
  env (log w ++ [spawn_call]) = Raises e ->
  main env fuel w
  = (Thrown e, World (dynamodb w) (next_loc w) (log w ++ [spawn_call])).
Proof.
  intros Hspawn. unfold main, bind at 1.
  unfold start, bind at 1, call. fold spawn_call.
  change (log (record spawn_call w)) with (log w ++ [spawn_call]).
  rewrite Hspawn. reflexivity.
Qed.

(** X15: if [spawn] returns [null] or [undefined], then after [test] has
    ended [stop] throws the runtime's error on [dynamodb.pid]: [main]
    throws, and [process.kill] is never called. *)
Theorem main_cannot_kill_missing_child fuel w w1 :
  start env w = (Normal tt, w1) ->
  nullish (dynamodb w1) = true ->
  match test env fuel w1 with
  | (Normal _, w2) => main env fuel w = (Thrown type_error, w2)
  | (Thrown e, w2) => main env fuel w = (Thrown type_error, record (Stderr e) w2)
  | (OutOfFuel, w2) => main env fuel w = (OutOfFuel, w2)
  end.
Proof.
  intros Hstart Hnull.
  rewrite (main_after_start env fuel w w1 Hstart).
  destruct (test env fuel w1) as [[[] | e |] w2] eqn:Htest;
    [| | reflexivity];
    pose proof (keeps_test env fuel _ _ _ Htest) as Hsame;
    unfold stop, bind, get_dynamodb, get_prop; cbn [dynamodb record];
    rewrite Hsame, Hnull; reflexivity.
Qed.

(** [stop] with a child in [dynamodb] ends as the kill ends. *)
Lemma stop_outcome w :
  nullish (dynamodb w) = false ->
  stop env w
  = (outcome (env (log w ++ [kill_call (dynamodb w)])),
     record (kill_call (dynamodb w)) w).
Proof.
  intros Hchild.
  unfold stop, bind, get_dynamodb, get_prop, call, ret.
  rewrite Hchild. fold (kill_call (dynamodb w)).
  unfold record. cbn [log].
  destruct (env (log w ++ [kill_call (dynamodb w)])); reflexivity.
Qed.

(** X16: [main] never fails because [test] failed.  With the emulator
    spawned, [main] ends as the kill ends: it returns if the kill returns
    and throws what the kill raised; the error of [test], if any, is only
    written to standard error. *)
Theorem main_ends_as_kill_ends fuel w w1 :
  start env w = (Normal tt, w1) ->
  nullish (dynamodb w1) = false ->
  let kill := kill_call (dynamodb w1) in
  match test env fuel w1 with
  | (Normal _, w2) =>
    main env fuel w = (outcome (env (log w2 ++ [kill])), record kill w2)
  | (Thrown e, w2) =>
    main env fuel w = (outcome (env (log w2 ++ [Stderr e; kill])),
                       record kill (record (Stderr e) w2))
  | (OutOfFuel, w2) => main env fuel w = (OutOfFuel, w2)
  end.
Proof.
  intros Hstart Hchild kill.
  rewrite (main_after_start env fuel w w1 Hstart).
  destruct (test env fuel w1) as [[[] | e |] w2] eqn:Htest;
    [| | reflexivity];
    pose proof (keeps_test env fuel _ _ _ Htest) as Hsame.
  - rewrite stop_outcome by (rewrite Hsame; exact Hchild).
    rewrite Hsame. reflexivity.
  - rewrite stop_outcome by (simpl; rewrite Hsame; exact Hchild).
    unfold record at 1 2 4. cbn [dynamodb log].
    rewrite Hsame, <- app_assoc. reflexivity.
Qed.

End Trouble.

Lemma main_stops_at_failed_spawn_witness :
  main no_emulator_env 201 initial_world
  = (Thrown (VStr "ENOENT"),
     World (dynamodb initial_world) (next_loc initial_world)
           (log initial_world ++ [spawn_call])).
Proof.
  apply (main_stops_at_failed_spawn no_emulator_env 201 initial_world).
  reflexivity.
Defined.

Lemma main_cannot_kill_missing_child_witness :
  let w1 := World VNull 0 [spawn_call; Sleep 1000] in
  match test null_child_env 201 w1 with
  | (Normal _, w2) => main null_child_env 201 initial_world = (Thrown type_error, w2)
  | (Thrown e, w2) =>
    main null_child_env 201 initial_world = (Thrown type_error, record (Stderr e) w2)
  | (OutOfFuel, w2) => main null_child_env 201 initial_world = (OutOfFuel, w2)
  end.
Proof.
  apply (main_cannot_kill_missing_child null_child_env 201 initial_world);
    reflexivity.
Defined.

Lemma main_ends_as_kill_ends_witness :
  let w1 := World (VObj [("id", VStr "01HZX"); ("pid", VNum 4242)]) 0
                  [spawn_call; Sleep 1000] in
  let kill := kill_call (dynamodb w1) in
  match test vanished_env 201 w1 with
  | (Normal _, w2) =>
    main vanished_env 201 initial_world
    = (outcome (vanished_env (log w2 ++ [kill])), record kill w2)
  | (Thrown e, w2) =>
    main vanished_env 201 initial_world
    = (outcome (vanished_env (log w2 ++ [Stderr e; kill])),
       record kill (record (Stderr e) w2))
  | (OutOfFuel, w2) => main vanished_env 201 initial_world = (OutOfFuel, w2)
  end.
Proof.
  apply (main_ends_as_kill_ends vanished_env 201 initial_world); reflexivity.
Defined.

(** In the last run [test] fails at the first batch write and the kill
    fails too: [main] throws the kill's error, not the write's. *)
Lemma vanished_run :
  fst (main vanished_env 201 initial_world) = Thrown (VStr "ESRCH").
Proof. vm_compute. reflexivity. Qed.

(** ** The schema as a whole *)

Lemma model_names_listed :
  model_names = ["Account"; "User"; "Product"; "Invoice"].
Proof. reflexivity. Qed.

Lemma index_names_listed : index_names = ["primary"; "gs1"].
Proof. reflexivity. Qed.

(** Case analysis on a model and on an index of the schema. *)
Ltac each_model H :=
  rewrite model_names_listed in H; simpl in H;
  repeat (destruct H as [<- | H]); [.. | contradiction].

Ltac each_index H :=
  rewrite index_names_listed in H; simpl in H;
  repeat (destruct H as [<- | H]); [.. | contradiction].

(** X17: the keys of the schema are well formed: for every model and
    every index, the two key attributes of the index are declared by the
    model as String fields with a value template, and every field a key
    template refers to is declared by the model. *)
Theorem schema_keys_well_formed m ix :
  In m model_names ->
  In ix index_names ->
  Forall (fun k => declares m k = true /\
                   attribute m k "type" = TString /\
                   exists template, attribute m k "value" = VStr template)
         (key_attributes ix) /\
  Forall (fun f => declares m f = true)
         (fst (key_fields m ix) ++ snd (key_fields m ix)).
Proof.
  intros Hm Hix. each_model Hm; each_index Hix;
    (split;
     [ repeat (apply Forall_cons;
               [split; [reflexivity | split; [reflexivity | eexists; reflexivity]] |]);
       apply Forall_nil
     | vm_compute; repeat (apply Forall_cons; [reflexivity |]); apply Forall_nil ]).
Qed.

Lemma schema_keys_well_formed_witness :
  Forall (fun k => declares "Invoice" k = true /\
                   attribute "Invoice" k "type" = TString /\
                   exists template, attribute "Invoice" k "value" = VStr template)
         (key_attributes "gs1") /\
  Forall (fun f => declares "Invoice" f = true)
         (fst (key_fields "Invoice" "gs1") ++ snd (key_fields "Invoice" "gs1")).
Proof.
  apply (schema_keys_well_formed "Invoice" "gs1"); simpl; tauto.
Defined.

(** X18: every model has a type tag of its own: its [gs1] hash key is a
    constant (no template variable), both of its sort keys start with that
    constant, and the four constants are pairwise different, so that items
    of different models never share a sort-key prefix. *)
Theorem schema_type_tags m :
  In m model_names ->
  template_vars (attribute m "gs1pk" "value") = [] /\
  String.prefix (type_tag m) (to_str (attribute m "sk" "value")) = true /\
  String.prefix (type_tag m) (to_str (attribute m "gs1sk" "value")) = true /\
  (forall m', In m' model_names -> type_tag m' = type_tag m -> m' = m).
Proof.
  intros Hm. each_model Hm;
    (split; [reflexivity |]; split; [reflexivity |]; split; [reflexivity |];
     intros m' Hm' Htag; each_model Hm'; (reflexivity || discriminate Htag)).
Qed.

Lemma schema_type_tags_witness :
  template_vars (attribute "User" "gs1pk" "value") = [] /\
  String.prefix (type_tag "User") (to_str (attribute "User" "sk" "value")) = true /\
  String.prefix (type_tag "User") (to_str (attribute "User" "gs1sk" "value")) = true /\
  (forall m', In m' model_names -> type_tag m' = type_tag "User" -> m' = "User").
Proof.
  apply (schema_type_tags "User"). simpl. tauto.
Defined.

(** X19: every model generates its [id] as a ULID and ends its [gs1]
    sort key with it, so that no two items of a model share a [gs1] key. *)
Theorem schema_ids_generated m :
  In m model_names ->
  attribute m "id" "type" = TString /\
  attribute m "id" "generate" = VStr "ulid" /\
  last (snd (key_fields m "gs1")) "" = "id".
Proof.
  intros Hm. each_model Hm; repeat split; reflexivity.
Qed.

Lemma schema_ids_generated_witness :
  attribute "Product" "id" "type" = TString /\
  attribute "Product" "id" "generate" = VStr "ulid" /\
  last (snd (key_fields "Product" "gs1")) "" = "id".
Proof.
  apply (schema_ids_generated "Product"). simpl. tauto.
Defined.

(** X20: the creations of the batch loop satisfy the User model: every
    field the model requires is passed by the call ([name], [email]), or is
    the [accountId] that [test] has put in the table's context, or has a
    default in the schema ([status]). *)
Theorem batch_creations_fill_required_fields User i batch f :
  In f (required_fields "User") ->
  In f (passed_props (create_call User i batch)) \/
  f = "accountId" \/
  has_default "User" f = true.
Proof.
  intros Hf. vm_compute in Hf.
  repeat (destruct Hf as [<- | Hf]); try contradiction.
  - right. left. reflexivity.
  - left. simpl. tauto.
  - left. simpl. tauto.
  - right. right. reflexivity.
Qed.

Lemma batch_creations_fill_required_fields_witness :
  In "email" (passed_props (create_call (VObj []) 7 (VRef 0))) \/
  "email" = "accountId" \/
  has_default "User" "email" = true.
Proof.
  apply (batch_creations_fill_required_fields (VObj []) 7 (VRef 0) "email").
  vm_compute. tauto.
Defined.

End OverviewSpec.

